(** * aerial_mapper: the batch and the incremental orthomosaic pipelines

    A shallow embedding of the two demo programs

      - [main-ortho-backward-grid.cc]              (module [Batch])
      - [main-ortho-backward-grid-incremental.cc]  (module [Incremental])

    Both programs are orchestration code: they read gflags, call the
    io / stereo / dsm / ortho / grid-map packages and thread one mutable
    grid map through them.  Those packages are collaborators whose code is
    outside the two files, so they enter the development as the fields of
    the class [Collaborators]; every call to one of them is recorded, in
    program order, in a trace of [Event]s.  A failing glog [CHECK] ends
    the run with [Fatal]; an out-of-range [operator[]] or an integer
    division by zero ends it with [Undefined].  The parsed gflags are a
    record; logging and the initialisation of glog, gflags and ROS leave
    no event. *)

From stdpp Require Import base list strings.
From Stdlib Require Import ZArith Lia.

Local Open Scope Z_scope.

(** ** Types declared by the collaborating packages *)

Module io.
  (** [io::PoseFormat]; the enumerators are those listed by the help text
      of the flag [backward_grid_pose_format]. *)
Inductive PoseFormat := Standard | StandardNamed | COLMAP | PIX4D | ROS.
End io.

Module grid_map.
Record Settings {double : Type} := {
    center_easting : double;
    center_northing : double;
    delta_easting : double;
    delta_northing : double;
    resolution : double
  }.
Arguments Settings : clear implicits.
End grid_map.

Module stereo.
Record Settings := { use_every_nth_image : Z }.
Record BlockMatchingParameters := { use_BM : bool }.
End stereo.

Module dsm.
Record Settings {double : Type} := {
    center_easting : double;
    center_northing : double
  }.
Arguments Settings : clear implicits.
End dsm.

Module ortho.
  (** [ortho::Settings], with the fields that the two programs assign. *)
Record Settings {double : Type} := {
    show_orthomosaic_opencv : bool;
    save_orthomosaic_jpg : bool;
    orthomosaic_jpg_filename : string;
    orthomosaic_elevation_m : double;
    use_digital_elevation_map : bool;
    colored_ortho : bool;
    use_multi_threads : bool
  }.
Arguments Settings : clear implicits.
End ortho.

(** ** The collaborators

    Output parameters of the C++ signatures ([Poses*], [Images*], the
    point cloud) are results here; the point cloud, which the programs
    declare themselves and pass by pointer, is also an argument, so that
    what the callee finds in it is visible. Methods of an object take the
    object and return its new state. *)

Class Collaborators := {
  double : Type;
  Pose : Type;
  Image : Type;
  Point : Type;              (* Eigen::Vector3d *)
  NCamera : Type;            (* aslam::NCamera *)
  GridMap : Type;            (* what grid_map::AerialGridMap::getMutable() points to *)
  Stereo : Type;             (* stereo::Stereo *)
  Dsm : Type;                (* dsm::Dsm *)
  OrthoBackwardGrid : Type;  (* ortho::OrthoBackwardGrid *)

  (* io::AerialMapperIO; a null shared_ptr is None *)
  loadCameraRigFromFile : string -> option NCamera;
  loadPosesFromFile : io.PoseFormat -> string -> list Pose;
  loadPosesFromFile_names : io.PoseFormat -> string -> list Pose * list string;
  loadImagesFromFile : string -> nat -> list Image;
  loadImagesFromFile_opts : string -> nat -> bool -> bool -> list Image;
  loadImagesFromFile_names : string -> list string -> bool -> bool -> list Image;
  loadPointCloudFromFile : string -> list Point -> list Point;
  to_format : string -> io.PoseFormat;

  (* stereo::Stereo *)
  Stereo_new : NCamera -> stereo.Settings -> stereo.BlockMatchingParameters -> Stereo;
  addFrames : Stereo -> list Pose -> list Image -> list Point -> Stereo * list Point;
  addFrame : Stereo -> Pose -> Image -> list Point -> Stereo * list Point;

  (* grid_map::AerialGridMap *)
  AerialGridMap_new : grid_map.Settings double -> GridMap;
  (* number of publications publishUntilShutdown makes before the
     external stop arrives *)
  shutdown_after : nat;

  (* dsm::Dsm *)
  Dsm_new : dsm.Settings double -> GridMap -> Dsm * GridMap;
  Dsm_process : Dsm -> list Point -> GridMap -> Dsm * GridMap;

  (* ortho::OrthoBackwardGrid *)
  ortho_Settings_default : ortho.Settings double;
  OrthoBackwardGrid_new :
    NCamera -> ortho.Settings double -> GridMap -> OrthoBackwardGrid * GridMap;
  OrthoBackwardGrid_process :
    OrthoBackwardGrid -> list Pose -> list Image -> GridMap -> OrthoBackwardGrid * GridMap
}.

(** The programs' container types. *)
Abbreviation Poses := (list Pose).
Abbreviation Images := (list Image).
Abbreviation PointCloud := (list Point).   (* AlignedType<std::vector, Eigen::Vector3d>::type *)

Section Effects.
Context `{Env : Collaborators}.

(** One event per call to a collaborator, with the arguments the
    program passes; the reconstruction events also carry the point
    cloud the call leaves behind. [EvPublish] is one publication of the
    grid map. *)
Inductive Event :=
| EvLoadCameraRig (path : string)
| EvLoadPoses (fmt : io.PoseFormat) (path : string)
| EvLoadImages (prefix : string) (num : nat)
| EvLoadImagesOpts (prefix : string) (num : nat) (colored show : bool)
| EvLoadImagesNames (base : string) (names : list string) (colored show : bool)
| EvLoadPointCloud (filename : string)
| EvStereoNew (s : stereo.Settings) (bm : stereo.BlockMatchingParameters)
| EvAddFrames (T_G_Bs : Poses) (images : Images) (point_cloud : PointCloud)
| EvAddFrame (T_G_B : Pose) (image : Image) (point_cloud : PointCloud)
| EvGridMapNew (s : grid_map.Settings double)
| EvDsmNew (s : dsm.Settings double)
| EvDsmProcess (point_cloud : PointCloud)
| EvOrthoNew (s : ortho.Settings double)
| EvOrthoProcess (T_G_Bs : Poses) (images : Images)
| EvPublish (m : GridMap).

Inductive Res (A : Type) :=
| Ok (a : A)
| Fatal        (* a glog CHECK failed: the process aborts *)
| Undefined.   (* undefined behaviour *)
Global Arguments Ok {A} a.
Global Arguments Fatal {A}.
Global Arguments Undefined {A}.

(** The programs' effects: the trace so far, and a value unless the
    run has ended. *)
Definition M (A : Type) : Type := list Event * Res A.

Definition ret {A} (a : A) : M A := ([], Ok a).

Definition bind {A B} (m : M A) (k : A -> M B) : M B :=
  match m.2 with
  | Ok a => (m.1 ++ (k a).1, (k a).2)
  | Fatal => (m.1, Fatal)
  | Undefined => (m.1, Undefined)
  end.

Definition emit (e : Event) : M unit := ([e], Ok tt).

Definition CHECK (b : bool) : M unit := if b then ret tt else ([], Fatal).

Definition undefined {A} : M A := ([], Undefined).
End Effects.

Declare Scope prog_scope.
Delimit Scope prog_scope with prog.
Notation "x <- m ;; k" := (bind m (fun x => k))
(at level 100, m at next level, right associativity) : prog_scope.
Notation "m ;; k" := (bind m (fun _ => k))
(at level 100, right associativity) : prog_scope.
Local Open Scope prog_scope.

Section Calls.
Context `{Env : Collaborators}.

(** A call to a collaborator: the event, then the value it returns. *)
Definition call {A} (e : Event) (result : A) : M A := emit e ;; ret result.

(** [CHECK(ptr)] on a shared pointer; the pointee is used afterwards. *)
Definition CHECK_ptr {A} (ptr : option A) : M A :=
  match ptr with
  | Some a => ret a
  | None => ([], Fatal)
  end.

(** [std::string::empty]. *)
Definition empty (s : string) : bool :=
  match s with
  | EmptyString => true
  | String _ _ => false
  end.

(** [v[i]] on a [std::vector]: undefined outside the vector. *)
Definition at_index {A} (v : list A) (i : nat) : M A :=
  match v !! i with
  | Some a => ret a
  | None => undefined
  end.

(** [for (size_t i = 0u; i < n; ++i) body]: the iterations [0 .. n-1]
    in order, each from the state the previous one left. *)
Fixpoint for_loop {S} (body : S -> nat -> M S) (n : nat) (init : S) : M S :=
  match n with
  | O => ret init
  | Datatypes.S i => (s <- for_loop body i init ;; body s i)
  end.

(** Modelled from the spec: [AerialGridMap::publishOnce] is not in the
    two programs' files. The publisher's "publish once" mode hands one
    snapshot of the raster to the transport. *)
Definition publishOnce (m : GridMap) : M unit := emit (EvPublish m).

(** Modelled from the spec: [AerialGridMap::publishUntilShutdown] is
    not in the two programs' files. The publisher's "publish repeatedly
    until externally stopped" mode hands the raster to the transport
    again and again; [shutdown_after] publications have been made when
    the external stop arrives and the call returns. *)
Definition publishUntilShutdown (m : GridMap) : M unit :=
  (replicate shutdown_after (EvPublish m), Ok tt).
End Calls.

(** ** main-ortho-backward-grid.cc *)

Module Batch.
Section Program.
Context `{Env : Collaborators}.

(** The gflags of the batch program. *)
Record Flags := {
  FLAGS_backward_grid_data_directory : string;
  FLAGS_backward_grid_filename_poses : string;
  FLAGS_backward_grid_prefix_images : string;
  FLAGS_backward_grid_filename_camera_rig : string;
  FLAGS_backward_grid_center_easting : double;
  FLAGS_backward_grid_center_northing : double;
  FLAGS_backward_grid_delta_easting : double;
  FLAGS_backward_grid_delta_northing : double;
  FLAGS_backward_grid_resolution : double;
  FLAGS_backward_grid_show_orthomosaic_opencv : bool;
  FLAGS_backward_grid_save_orthomosaic_jpg : bool;
  FLAGS_backward_grid_orthomosaic_jpg_filename : string;
  FLAGS_backward_grid_orthomosaic_elevation_m : double;
  FLAGS_backward_grid_use_digital_elevation_map : bool;
  FLAGS_point_cloud_filename : string;
  FLAGS_dense_pcl_use_every_nth_image : Z;
  FLAGS_use_BM : bool;
  FLAGS_load_point_cloud_from_file : bool
}.

Definition parseSettingsOrtho (flags : Flags)
    (settings_ortho : ortho.Settings double) : ortho.Settings double :=
  {| ortho.show_orthomosaic_opencv :=
       FLAGS_backward_grid_show_orthomosaic_opencv flags;
     ortho.save_orthomosaic_jpg :=
       FLAGS_backward_grid_save_orthomosaic_jpg flags;
     ortho.orthomosaic_jpg_filename :=
       FLAGS_backward_grid_orthomosaic_jpg_filename flags;
     ortho.orthomosaic_elevation_m :=
       FLAGS_backward_grid_orthomosaic_elevation_m flags;
     ortho.use_digital_elevation_map :=
       FLAGS_backward_grid_use_digital_elevation_map flags;
     ortho.colored_ortho := ortho.colored_ortho settings_ortho;
     ortho.use_multi_threads := ortho.use_multi_threads settings_ortho |}.

(** "Retrieve dense point cloud": from the file, or by dense
    reconstruction from the poses and images. *)
Definition retrieve_point_cloud (flags : Flags) (ncameras : NCamera)
    (T_G_Bs : Poses) (images : Images) : M PointCloud :=
  let point_cloud : PointCloud := [] in
  if FLAGS_load_point_cloud_from_file flags then
    CHECK (negb (empty (FLAGS_point_cloud_filename flags))) ;;
    call (EvLoadPointCloud (FLAGS_point_cloud_filename flags))
         (loadPointCloudFromFile (FLAGS_point_cloud_filename flags) point_cloud)
  else
    let settings_dense_pcl :=
      {| stereo.use_every_nth_image := FLAGS_dense_pcl_use_every_nth_image flags |} in
    let block_matching_params := {| stereo.use_BM := FLAGS_use_BM flags |} in
    stereo <- call (EvStereoNew settings_dense_pcl block_matching_params)
                   (Stereo_new ncameras settings_dense_pcl block_matching_params) ;;
    let r := addFrames stereo T_G_Bs images point_cloud in
    call (EvAddFrames T_G_Bs images r.2) r.2.

Definition main (flags : Flags) : M Z :=
  (* Parse input parameters. *)
  let base := FLAGS_backward_grid_data_directory flags in
  let filename_camera_rig := FLAGS_backward_grid_filename_camera_rig flags in
  let filename_poses := FLAGS_backward_grid_filename_poses flags in
  let filename_images := base +:+ FLAGS_backward_grid_prefix_images flags in
  (* Load camera rig from file. *)
  let filename_camera_rig_yaml := base +:+ filename_camera_rig in
  ptr <- call (EvLoadCameraRig filename_camera_rig_yaml)
              (loadCameraRigFromFile filename_camera_rig_yaml) ;;
  ncameras <- CHECK_ptr ptr ;;
  (* Load body poses from file. *)
  let path_filename_poses := base +:+ filename_poses in
  let pose_format := io.Standard in
  T_G_Bs <- call (EvLoadPoses pose_format path_filename_poses)
                 (loadPosesFromFile pose_format path_filename_poses) ;;
  (* Load images from file. *)
  let num_poses := length T_G_Bs in
  images <- call (EvLoadImages filename_images num_poses)
                 (loadImagesFromFile filename_images num_poses) ;;
  (* Retrieve dense point cloud. *)
  point_cloud <- retrieve_point_cloud flags ncameras T_G_Bs images ;;
  (* Initialize layered map. *)
  let settings_aerial_grid_map :=
    {| grid_map.center_easting := FLAGS_backward_grid_center_easting flags;
       grid_map.center_northing := FLAGS_backward_grid_center_northing flags;
       grid_map.delta_easting := FLAGS_backward_grid_delta_easting flags;
       grid_map.delta_northing := FLAGS_backward_grid_delta_northing flags;
       grid_map.resolution := FLAGS_backward_grid_resolution flags |} in
  map0 <- call (EvGridMapNew settings_aerial_grid_map)
               (AerialGridMap_new settings_aerial_grid_map) ;;
  (* Create DSM (batch). *)
  let settings_dsm :=
    {| dsm.center_easting := grid_map.center_easting settings_aerial_grid_map;
       dsm.center_northing := grid_map.center_northing settings_aerial_grid_map |} in
  d0 <- call (EvDsmNew settings_dsm) (Dsm_new settings_dsm map0) ;;
  d1 <- call (EvDsmProcess point_cloud) (Dsm_process d0.1 point_cloud d0.2) ;;
  (* Construct the orthomosaic (batch). *)
  let settings_ortho := parseSettingsOrtho flags ortho_Settings_default in
  o0 <- call (EvOrthoNew settings_ortho)
             (OrthoBackwardGrid_new ncameras settings_ortho d1.2) ;;
  o1 <- call (EvOrthoProcess T_G_Bs images)
             (OrthoBackwardGrid_process o0.1 T_G_Bs images o0.2) ;;
  (* Publish until shutdown. *)
  publishUntilShutdown o1.2 ;;
  ret 0.
End Program.
End Batch.

(** ** main-ortho-backward-grid-incremental.cc *)

Module Incremental.
Section Program.
Context `{Env : Collaborators}.

(** The gflags of the incremental program. *)
Record Flags := {
  FLAGS_backward_grid_data_directory : string;
  FLAGS_backward_grid_filename_poses : string;
  FLAGS_backward_grid_pose_format : string;
  FLAGS_backward_grid_prefix_images : string;
  FLAGS_backward_grid_show_images : bool;
  FLAGS_backward_grid_filename_camera_rig : string;
  FLAGS_backward_grid_center_easting : double;
  FLAGS_backward_grid_center_northing : double;
  FLAGS_backward_grid_delta_easting : double;
  FLAGS_backward_grid_delta_northing : double;
  FLAGS_backward_grid_resolution : double;
  FLAGS_backward_grid_show_orthomosaic_opencv : bool;
  FLAGS_backward_grid_save_orthomosaic_jpg : bool;
  FLAGS_backward_grid_orthomosaic_jpg_filename : string;
  FLAGS_backward_grid_orthomosaic_elevation_m : double;
  FLAGS_backward_grid_use_digital_elevation_map : bool;
  FLAGS_point_cloud_filename : string;
  FLAGS_dense_pcl_use_every_nth_image : Z;   (* int32 *)
  FLAGS_backward_grid_colored_ortho : bool;
  FLAGS_backward_grid_use_multi_threads : bool;
  FLAGS_use_BM : bool
}.

(** [size_t] is the 64-bit unsigned type: a value converted to it, or the
    result of arithmetic in it, is taken modulo 2^64. *)
Definition size_t (z : Z) : Z := z mod 2 ^ 64.

(** [a % b] in [size_t]; dividing by zero is undefined. *)
Definition rem (a b : Z) : M Z :=
  if b =? 0 then undefined else ret (a mod b).

(** The variables that live across the iterations of the loop, and the
    objects it mutates. *)
Record LoopState := {
  images_subset : Images;
  T_G_Bs_subset : Poses;
  skip : Z;                          (* size_t *)
  pcl_cnt : Z;                       (* size_t *)
  stereo_ : Stereo;
  digital_surface_map : Dsm;
  mosaic : OrthoBackwardGrid;
  map_ : GridMap
}.

(** One iteration of "Run all modules incrementally." *)
Definition loop_body (flags : Flags) (T_G_Bs : Poses) (images : Images)
    (st : LoopState) (i : nat) : M LoopState :=
  image_i <- at_index images i ;;
  let images_subset1 := images_subset st ++ [image_i] in
  T_G_B_i <- at_index T_G_Bs i ;;
  let T_G_Bs_subset1 := T_G_Bs_subset st ++ [T_G_B_i] in
  let skip1 := size_t (skip st + 1) in
  (* the int32 flag is converted to size_t for the remainder *)
  r <- rem skip1 (size_t (FLAGS_dense_pcl_use_every_nth_image flags)) ;;
  if r =? 0 then
    let point_cloud : PointCloud := [] in
    let sr := addFrame (stereo_ st) T_G_B_i image_i point_cloud in
    point_cloud <- call (EvAddFrame T_G_B_i image_i sr.2) sr.2 ;;
    if 0 <? pcl_cnt st then
      dr <- call (EvDsmProcess point_cloud)
                 (Dsm_process (digital_surface_map st) point_cloud (map_ st)) ;;
      orr <- call (EvOrthoProcess T_G_Bs_subset1 images_subset1)
                  (OrthoBackwardGrid_process (mosaic st)
                     T_G_Bs_subset1 images_subset1 dr.2) ;;
      publishOnce orr.2 ;;
      ret {| images_subset := [];
             T_G_Bs_subset := [];
             skip := skip1;
             pcl_cnt := size_t (pcl_cnt st + 1);
             stereo_ := sr.1;
             digital_surface_map := dr.1;
             mosaic := orr.1;
             map_ := orr.2 |}
    else
      ret {| images_subset := images_subset1;
             T_G_Bs_subset := T_G_Bs_subset1;
             skip := skip1;
             pcl_cnt := size_t (pcl_cnt st + 1);
             stereo_ := sr.1;
             digital_surface_map := digital_surface_map st;
             mosaic := mosaic st;
             map_ := map_ st |}
  else
    ret {| images_subset := images_subset1;
           T_G_Bs_subset := T_G_Bs_subset1;
           skip := skip1;
           pcl_cnt := pcl_cnt st;
           stereo_ := stereo_ st;
           digital_surface_map := digital_surface_map st;
           mosaic := mosaic st;
           map_ := map_ st |}.

(** The state in which the loop is entered. *)
Definition loop_init (stereo : Stereo) (digital_surface_map : Dsm)
    (mosaic : OrthoBackwardGrid) (map : GridMap) : LoopState :=
  {| images_subset := [];
     T_G_Bs_subset := [];
     skip := 0;
     pcl_cnt := 0;
     stereo_ := stereo;
     digital_surface_map := digital_surface_map;
     mosaic := mosaic;
     map_ := map |}.

(** "Run all modules incrementally.": the whole loop. *)
Definition run_incrementally (flags : Flags) (T_G_Bs : Poses) (images : Images)
    (init : LoopState) : M LoopState :=
  for_loop (loop_body flags T_G_Bs images) (length images) init.

Definition main (flags : Flags) : M Z :=
  (* Parse input parameters. *)
  let base := FLAGS_backward_grid_data_directory flags in
  let filename_camera_rig := FLAGS_backward_grid_filename_camera_rig flags in
  let filename_poses := FLAGS_backward_grid_filename_poses flags in
  let filename_images := base +:+ FLAGS_backward_grid_prefix_images flags in
  (* Load camera rig from file. *)
  let filename_camera_rig_yaml := base +:+ filename_camera_rig in
  ptr <- call (EvLoadCameraRig filename_camera_rig_yaml)
              (loadCameraRigFromFile filename_camera_rig_yaml) ;;
  ncameras <- CHECK_ptr ptr ;;
  (* Load body poses from file. *)
  let path_filename_poses := base +:+ filename_poses in
  let pose_format := to_format (FLAGS_backward_grid_pose_format flags) in
  loaded <- call (EvLoadPoses pose_format path_filename_poses)
                 (loadPosesFromFile_names pose_format path_filename_poses) ;;
  let T_G_Bs := loaded.1 in
  let image_names := loaded.2 in
  (* Load images from file. *)
  let num_poses := length T_G_Bs in
  images <-
    match image_names with
    | [] =>
        call (EvLoadImagesOpts filename_images num_poses
                (FLAGS_backward_grid_colored_ortho flags)
                (FLAGS_backward_grid_show_images flags))
             (loadImagesFromFile_opts filename_images num_poses
                (FLAGS_backward_grid_colored_ortho flags)
                (FLAGS_backward_grid_show_images flags))
    | _ :: _ =>
        call (EvLoadImagesNames base image_names
                (FLAGS_backward_grid_colored_ortho flags)
                (FLAGS_backward_grid_show_images flags))
             (loadImagesFromFile_names base image_names
                (FLAGS_backward_grid_colored_ortho flags)
                (FLAGS_backward_grid_show_images flags))
    end ;;
  (* Set up layered map (grid_map). *)
  let settings_aerial_grid_map :=
    {| grid_map.center_easting := FLAGS_backward_grid_center_easting flags;
       grid_map.center_northing := FLAGS_backward_grid_center_northing flags;
       grid_map.delta_easting := FLAGS_backward_grid_delta_easting flags;
       grid_map.delta_northing := FLAGS_backward_grid_delta_northing flags;
       grid_map.resolution := FLAGS_backward_grid_resolution flags |} in
  map0 <- call (EvGridMapNew settings_aerial_grid_map)
               (AerialGridMap_new settings_aerial_grid_map) ;;
  (* Set up dense reconstruction. *)
  let settings_dense_pcl :=
    {| stereo.use_every_nth_image := FLAGS_dense_pcl_use_every_nth_image flags |} in
  let block_matching_params := {| stereo.use_BM := FLAGS_use_BM flags |} in
  stereo <- call (EvStereoNew settings_dense_pcl block_matching_params)
                 (Stereo_new ncameras settings_dense_pcl block_matching_params) ;;
  (* Set up digital surface map. *)
  let settings_dsm :=
    {| dsm.center_easting := grid_map.center_easting settings_aerial_grid_map;
       dsm.center_northing := grid_map.center_northing settings_aerial_grid_map |} in
  d0 <- call (EvDsmNew settings_dsm) (Dsm_new settings_dsm map0) ;;
  (* Set up orthomosaic. *)
  let settings_ortho :=
    {| ortho.show_orthomosaic_opencv :=
         FLAGS_backward_grid_show_orthomosaic_opencv flags;
       ortho.save_orthomosaic_jpg :=
         FLAGS_backward_grid_save_orthomosaic_jpg flags;
       ortho.orthomosaic_jpg_filename :=
         FLAGS_backward_grid_orthomosaic_jpg_filename flags;
       ortho.orthomosaic_elevation_m :=
         FLAGS_backward_grid_orthomosaic_elevation_m flags;
       ortho.use_digital_elevation_map :=
         FLAGS_backward_grid_use_digital_elevation_map flags;
       ortho.colored_ortho := FLAGS_backward_grid_colored_ortho flags;
       ortho.use_multi_threads := FLAGS_backward_grid_use_multi_threads flags |} in
  o0 <- call (EvOrthoNew settings_ortho)
             (OrthoBackwardGrid_new ncameras settings_ortho d0.2) ;;
  (* Run all modules incrementally. *)
  run_incrementally flags T_G_Bs images (loop_init stereo d0.1 o0.1 o0.2) ;;
  ret 0.
End Program.
End Incremental.

(** ** Reading a trace *)

Section Observations.
Context `{Env : Collaborators}.

Definition is_add_frame (e : Event) : bool :=
  match e with EvAddFrame _ _ _ => true | _ => false end.
Definition is_dsm_process (e : Event) : bool :=
  match e with EvDsmProcess _ => true | _ => false end.
Definition is_ortho_process (e : Event) : bool :=
  match e with EvOrthoProcess _ _ => true | _ => false end.
Definition is_publish (e : Event) : bool :=
  match e with EvPublish _ => true | _ => false end.

Definition is_load_point_cloud (e : Event) : bool :=
  match e with EvLoadPointCloud _ => true | _ => false end.

(** Events of the fusion, compositing and publishing stages. *)
Definition is_pass_event (e : Event) : bool :=
  is_dsm_process e || is_ortho_process e || is_publish e.

(** Events of the reconstruction stage. *)
Definition is_stereo_event (e : Event) : bool :=
  match e with
  | EvStereoNew _ _ | EvAddFrames _ _ _ | EvAddFrame _ _ _ => true
  | _ => false
  end.

Definition count (f : Event -> bool) (t : list Event) : nat :=
  length (List.filter f t).

(** The windows handed to the compositor, in call order. *)
Definition ortho_images (t : list Event) : list Images :=
  omap (fun e => match e with EvOrthoProcess _ ims => Some ims | _ => None end) t.
Definition ortho_poses (t : list Event) : list Poses :=
  omap (fun e => match e with EvOrthoProcess ps _ => Some ps | _ => None end) t.

(** The frames handed to [Stereo::addFrame], in call order. *)
Definition stereo_frames (t : list Event) : list (Pose * Image) :=
  omap (fun e => match e with EvAddFrame p im _ => Some (p, im) | _ => None end) t.

(** The formats with which the pose loader is called, and the settings
    with which compositors are built. *)
Definition pose_formats (t : list Event) : list io.PoseFormat :=
  omap (fun e => match e with EvLoadPoses fmt _ => Some fmt | _ => None end) t.
Definition ortho_settings_used (t : list Event) : list (ortho.Settings double) :=
  omap (fun e => match e with EvOrthoNew s => Some s | _ => None end) t.

(** The trace that iteration [i] of the incremental loop adds, when the
    loop gets that far. *)
Definition iteration_events (flags : Incremental.Flags) (T_G_Bs : Poses)
    (images : Images) (init : Incremental.LoopState) (i : nat) : list Event :=
  match (for_loop (Incremental.loop_body flags T_G_Bs images) i init).2 with
  | Ok s => (Incremental.loop_body flags T_G_Bs images s i).1
  | _ => []
  end.

(** The window size in force: the flag as the remainder sees it. *)
Definition window (flags : Incremental.Flags) : Z :=
  Incremental.size_t (Incremental.FLAGS_dense_pcl_use_every_nth_image flags).
End Observations.

(** ** The incremental loop as a step relation

    The three ways an iteration of the loop can go, as functions of the
    state it starts from and of the frame it consumes, and the relation
    "after [k] iterations the trace is [t] and the state is [s]". *)

Section LoopSteps.
Context `{Env : Collaborators}.
Import Incremental.

(** The counter is not at a multiple of the stride: the frame joins the
    window and nothing else happens. *)
Definition idle_step (s : LoopState) (T_G_B : Pose) (image : Image) : LoopState :=
  {| images_subset := images_subset s ++ [image];
     T_G_Bs_subset := T_G_Bs_subset s ++ [T_G_B];
     skip := size_t (skip s + 1);
     pcl_cnt := pcl_cnt s;
     stereo_ := stereo_ s;
     digital_surface_map := digital_surface_map s;
     mosaic := mosaic s;
     map_ := map_ s |}.

(** The cloud that [addFrame] leaves in the fresh, empty vector. *)
Definition new_points (s : LoopState) (T_G_B : Pose) (image : Image) : PointCloud :=
  (addFrame (stereo_ s) T_G_B image []).2.

(** The counter is at a multiple of the stride and [pcl_cnt] is zero: the
    frame goes to the stereo object, the window is kept. *)
Definition reconstruct_step (s : LoopState) (T_G_B : Pose) (image : Image)
    : LoopState :=
  {| images_subset := images_subset s ++ [image];
     T_G_Bs_subset := T_G_Bs_subset s ++ [T_G_B];
     skip := size_t (skip s + 1);
     pcl_cnt := size_t (pcl_cnt s + 1);
     stereo_ := (addFrame (stereo_ s) T_G_B image []).1;
     digital_surface_map := digital_surface_map s;
     mosaic := mosaic s;
     map_ := map_ s |}.

Definition reconstruct_events (s : LoopState) (T_G_B : Pose) (image : Image)
    : list Event :=
  [EvAddFrame T_G_B image (new_points s T_G_B image)].

(** The counter is at a multiple of the stride and [pcl_cnt] is
    positive: reconstruction, fusion, compositing of the window,
    publication; the window is cleared. *)
Definition fused (s : LoopState) (T_G_B : Pose) (image : Image) : Dsm * GridMap :=
  Dsm_process (digital_surface_map s) (new_points s T_G_B image) (map_ s).

Definition composited (s : LoopState) (T_G_B : Pose) (image : Image)
    : OrthoBackwardGrid * GridMap :=
  OrthoBackwardGrid_process (mosaic s) (T_G_Bs_subset s ++ [T_G_B])
    (images_subset s ++ [image]) (fused s T_G_B image).2.

Definition pass_step (s : LoopState) (T_G_B : Pose) (image : Image) : LoopState :=
  {| images_subset := [];
     T_G_Bs_subset := [];
     skip := size_t (skip s + 1);
     pcl_cnt := size_t (pcl_cnt s + 1);
     stereo_ := (addFrame (stereo_ s) T_G_B image []).1;
     digital_surface_map := (fused s T_G_B image).1;
     mosaic := (composited s T_G_B image).1;
     map_ := (composited s T_G_B image).2 |}.

Definition pass_events (s : LoopState) (T_G_B : Pose) (image : Image)
    : list Event :=
  [EvAddFrame T_G_B image (new_points s T_G_B image);
   EvDsmProcess (new_points s T_G_B image);
   EvOrthoProcess (T_G_Bs_subset s ++ [T_G_B]) (images_subset s ++ [image]);
   EvPublish (composited s T_G_B image).2].

Section Reach.
Variable flags : Flags.
Variable T_G_Bs : Poses.
Variable images : Images.
Variable init : LoopState.

Inductive reaches : nat -> list Event -> LoopState -> Prop :=
| reach_init : reaches 0 [] init
| reach_idle k t s T_G_B image :
    reaches k t s ->
    T_G_Bs !! k = Some T_G_B -> images !! k = Some image ->
    size_t (skip s + 1) mod window flags <> 0 ->
    reaches (S k) t (idle_step s T_G_B image)
| reach_reconstruct k t s T_G_B image :
    reaches k t s ->
    T_G_Bs !! k = Some T_G_B -> images !! k = Some image ->
    size_t (skip s + 1) mod window flags = 0 ->
    pcl_cnt s <= 0 ->
    reaches (S k) (t ++ reconstruct_events s T_G_B image)
      (reconstruct_step s T_G_B image)
| reach_pass k t s T_G_B image :
    reaches k t s ->
    T_G_Bs !! k = Some T_G_B -> images !! k = Some image ->
    size_t (skip s + 1) mod window flags = 0 ->
    0 < pcl_cnt s ->
    reaches (S k) (t ++ pass_events s T_G_B image) (pass_step s T_G_B image).
End Reach.
End LoopSteps.

(** ** Reading more of a trace

    The maps handed to the publisher, the settings with which the grid
    map and the fuser are built, and the stereo object that a sequence of
    [addFrame] calls leaves. *)

Section MoreObservations.
Context `{Env : Collaborators}.

Definition published (t : list Event) : list GridMap :=
  omap (fun e => match e with EvPublish m => Some m | _ => None end) t.

Definition map_settings_used (t : list Event) : list (grid_map.Settings double) :=
  omap (fun e => match e with EvGridMapNew s => Some s | _ => None end) t.
Definition dsm_settings_used (t : list Event) : list (dsm.Settings double) :=
  omap (fun e => match e with EvDsmNew s => Some s | _ => None end) t.

(** The fuser settings centred where the grid map is. *)
Definition centred_as (s : grid_map.Settings double) : dsm.Settings double :=
  {| dsm.center_easting := grid_map.center_easting s;
     dsm.center_northing := grid_map.center_northing s |}.

(** How many numbered images the image loader is asked for, and which
    named ones. *)
Definition image_counts_requested (t : list Event) : list nat :=
  omap (fun e => match e with
                 | EvLoadImages _ num | EvLoadImagesOpts _ num _ _ => Some num
                 | _ => None
                 end) t.
Definition image_names_requested (t : list Event) : list (list string) :=
  omap (fun e => match e with
                 | EvLoadImagesNames _ names _ _ => Some names
                 | _ => None
                 end) t.

(** The stereo object after [addFrame] on each of [frames] in turn, every
    call with an empty vector for the points. *)
Definition stereo_after (stereo : Stereo) (frames : list (Pose * Image)) : Stereo :=
  foldl (fun st frame => (addFrame st frame.1 frame.2 []).1) stereo frames.
End MoreObservations.

(** ** A small concrete world

    Poses, images and points are numbers; the stereo object remembers the
    images it was given and returns one point per image; the grid map is
    the list of what was written into it. *)

Module Sample.
Definition pose_format_of (s : string) : io.PoseFormat :=
  if String.eqb s "COLMAP" then io.COLMAP
  else if String.eqb s "PIX4D" then io.PIX4D
  else if String.eqb s "ROS" then io.ROS
  else if String.eqb s "StandardNamed" then io.StandardNamed
  else io.Standard.

#[local] Instance world : Collaborators := {|
  double := Z;
  Pose := nat;
  Image := nat;
  Point := nat;
  NCamera := unit;
  GridMap := list nat;
  Stereo := list nat;
  Dsm := unit;
  OrthoBackwardGrid := unit;
  loadCameraRigFromFile := fun path => if empty path then None else Some tt;
  loadPosesFromFile := fun _ _ => seq 0 12;
  loadPosesFromFile_names := fun _ _ => (seq 0 12, []);
  loadImagesFromFile := fun _ num => seq 100 num;
  loadImagesFromFile_opts := fun _ num _ _ => seq 100 num;
  loadImagesFromFile_names := fun _ names _ _ => seq 100 (length names);
  loadPointCloudFromFile := fun _ point_cloud => point_cloud ++ [7; 8; 9]%nat;
  to_format := pose_format_of;
  Stereo_new := fun _ _ _ => [];
  addFrames := fun st _ images point_cloud => (st ++ images, point_cloud ++ images);
  addFrame := fun st _ image point_cloud => (st ++ [image], point_cloud ++ [image]);
  AerialGridMap_new := fun _ => [];
  shutdown_after := 3;
  Dsm_new := fun _ m => (tt, m);
  Dsm_process := fun _ point_cloud m => (tt, m ++ point_cloud);
  ortho_Settings_default :=
    {| ortho.show_orthomosaic_opencv := false;
       ortho.save_orthomosaic_jpg := false;
       ortho.orthomosaic_jpg_filename := EmptyString;
       ortho.orthomosaic_elevation_m := 0;
       ortho.use_digital_elevation_map := false;
       ortho.colored_ortho := false;
       ortho.use_multi_threads := false |};
  OrthoBackwardGrid_new := fun _ _ m => (tt, m);
  OrthoBackwardGrid_process := fun _ _ images m => (tt, m ++ images)
|}.

(** Flags of a batch run; the two arguments choose the point-cloud source. *)
Definition batch_flags (from_file : bool) (filename : string) : Batch.Flags :=
  {| Batch.FLAGS_backward_grid_data_directory := "data/";
     Batch.FLAGS_backward_grid_filename_poses := "poses.txt";
     Batch.FLAGS_backward_grid_prefix_images := "image_";
     Batch.FLAGS_backward_grid_filename_camera_rig := "rig.yaml";
     Batch.FLAGS_backward_grid_center_easting := 0;
     Batch.FLAGS_backward_grid_center_northing := 0;
     Batch.FLAGS_backward_grid_delta_easting := 100;
     Batch.FLAGS_backward_grid_delta_northing := 100;
     Batch.FLAGS_backward_grid_resolution := 1;
     Batch.FLAGS_backward_grid_show_orthomosaic_opencv := true;
     Batch.FLAGS_backward_grid_save_orthomosaic_jpg := true;
     Batch.FLAGS_backward_grid_orthomosaic_jpg_filename := "ortho.jpg";
     Batch.FLAGS_backward_grid_orthomosaic_elevation_m := 0;
     Batch.FLAGS_backward_grid_use_digital_elevation_map := true;
     Batch.FLAGS_point_cloud_filename := filename;
     Batch.FLAGS_dense_pcl_use_every_nth_image := 10;
     Batch.FLAGS_use_BM := true;
     Batch.FLAGS_load_point_cloud_from_file := from_file |}.

(** Flags of an incremental run with the given stride and pose format. *)
Definition incremental_flags (every_nth : Z) (pose_format : string)
    : Incremental.Flags :=
  {| Incremental.FLAGS_backward_grid_data_directory := "data/";
     Incremental.FLAGS_backward_grid_filename_poses := "poses.txt";
     Incremental.FLAGS_backward_grid_pose_format := pose_format;
     Incremental.FLAGS_backward_grid_prefix_images := "image_";
     Incremental.FLAGS_backward_grid_show_images := false;
     Incremental.FLAGS_backward_grid_filename_camera_rig := "rig.yaml";
     Incremental.FLAGS_backward_grid_center_easting := 0;
     Incremental.FLAGS_backward_grid_center_northing := 0;
     Incremental.FLAGS_backward_grid_delta_easting := 100;
     Incremental.FLAGS_backward_grid_delta_northing := 100;
     Incremental.FLAGS_backward_grid_resolution := 1;
     Incremental.FLAGS_backward_grid_show_orthomosaic_opencv := true;
     Incremental.FLAGS_backward_grid_save_orthomosaic_jpg := true;
     Incremental.FLAGS_backward_grid_orthomosaic_jpg_filename := "ortho.jpg";
     Incremental.FLAGS_backward_grid_orthomosaic_elevation_m := 0;
     Incremental.FLAGS_backward_grid_use_digital_elevation_map := true;
     Incremental.FLAGS_point_cloud_filename := EmptyString;
     Incremental.FLAGS_dense_pcl_use_every_nth_image := every_nth;
     Incremental.FLAGS_backward_grid_colored_ortho := true;
     Incremental.FLAGS_backward_grid_use_multi_threads := true;
     Incremental.FLAGS_use_BM := true |}.

(** The loop's entry state in this world. *)
Definition init : Incremental.LoopState := Incremental.loop_init [] tt tt [].

(** [n] poses 0, 1, ... and [n] images 100, 101, ... *)
Definition poses (n : nat) : list nat := seq 0 n.
Definition images (n : nat) : list nat := seq 100 n.
End Sample.

(** ** Flags that name no rig file

    In the sample world a rig loads unless its path is empty. *)

Module SampleEdge.
#[local] Existing Instance Sample.world.

Definition batch_flags : Batch.Flags :=
  {| Batch.FLAGS_backward_grid_data_directory := EmptyString;
     Batch.FLAGS_backward_grid_filename_poses := "poses.txt";
     Batch.FLAGS_backward_grid_prefix_images := "image_";
     Batch.FLAGS_backward_grid_filename_camera_rig := EmptyString;
     Batch.FLAGS_backward_grid_center_easting := 0;
     Batch.FLAGS_backward_grid_center_northing := 0;
     Batch.FLAGS_backward_grid_delta_easting := 100;
     Batch.FLAGS_backward_grid_delta_northing := 100;
     Batch.FLAGS_backward_grid_resolution := 1;
     Batch.FLAGS_backward_grid_show_orthomosaic_opencv := true;
     Batch.FLAGS_backward_grid_save_orthomosaic_jpg := true;
     Batch.FLAGS_backward_grid_orthomosaic_jpg_filename := "ortho.jpg";
     Batch.FLAGS_backward_grid_orthomosaic_elevation_m := 0;
     Batch.FLAGS_backward_grid_use_digital_elevation_map := true;
     Batch.FLAGS_point_cloud_filename := EmptyString;
     Batch.FLAGS_dense_pcl_use_every_nth_image := 10;
     Batch.FLAGS_use_BM := true;
     Batch.FLAGS_load_point_cloud_from_file := false |}.

Definition incremental_flags : Incremental.Flags :=
  {| Incremental.FLAGS_backward_grid_data_directory := EmptyString;
     Incremental.FLAGS_backward_grid_filename_poses := "poses.txt";
     Incremental.FLAGS_backward_grid_pose_format := "Standard";
     Incremental.FLAGS_backward_grid_prefix_images := "image_";
     Incremental.FLAGS_backward_grid_show_images := false;
     Incremental.FLAGS_backward_grid_filename_camera_rig := EmptyString;
     Incremental.FLAGS_backward_grid_center_easting := 0;
     Incremental.FLAGS_backward_grid_center_northing := 0;
     Incremental.FLAGS_backward_grid_delta_easting := 100;
     Incremental.FLAGS_backward_grid_delta_northing := 100;
     Incremental.FLAGS_backward_grid_resolution := 1;
     Incremental.FLAGS_backward_grid_show_orthomosaic_opencv := true;
     Incremental.FLAGS_backward_grid_save_orthomosaic_jpg := true;
     Incremental.FLAGS_backward_grid_orthomosaic_jpg_filename := "ortho.jpg";
     Incremental.FLAGS_backward_grid_orthomosaic_elevation_m := 0;
     Incremental.FLAGS_backward_grid_use_digital_elevation_map := true;
     Incremental.FLAGS_point_cloud_filename := EmptyString;
     Incremental.FLAGS_dense_pcl_use_every_nth_image := 1;
     Incremental.FLAGS_backward_grid_colored_ortho := false;
     Incremental.FLAGS_backward_grid_use_multi_threads := false;
     Incremental.FLAGS_use_BM := true |}.
End SampleEdge.

(** ** The stages of a batch run

    Names for what the batch program loads and for the segments of its
    trace; the lemmas below relate them to [Batch.main]. *)

Module BatchRun.
Section Stages.
Context `{Env : Collaborators}.
Import Batch.

Definition rig_path (flags : Flags) : string :=
  FLAGS_backward_grid_data_directory flags
    +:+ FLAGS_backward_grid_filename_camera_rig flags.
Definition poses_path (flags : Flags) : string :=
  FLAGS_backward_grid_data_directory flags
    +:+ FLAGS_backward_grid_filename_poses flags.
Definition images_prefix (flags : Flags) : string :=
  FLAGS_backward_grid_data_directory flags
    +:+ FLAGS_backward_grid_prefix_images flags.

(** The whole input: every pose of the pose file, and as many images. *)
Definition loaded_poses (flags : Flags) : Poses :=
  loadPosesFromFile io.Standard (poses_path flags).
Definition loaded_images (flags : Flags) : Images :=
  loadImagesFromFile (images_prefix flags) (length (loaded_poses flags)).

(** Loading the poses and the images, after the rig. *)
Definition loading_events (flags : Flags) : list Event :=
  [EvLoadPoses io.Standard (poses_path flags);
   EvLoadImages (images_prefix flags) (length (loaded_poses flags))].

(** The cloud of a point-cloud file, and the events of reading it. *)
Definition file_cloud (flags : Flags) : PointCloud :=
  loadPointCloudFromFile (FLAGS_point_cloud_filename flags) [].
Definition file_events (flags : Flags) : list Event :=
  [EvLoadPointCloud (FLAGS_point_cloud_filename flags)].

(** The cloud of the dense reconstruction over the whole input, and its
    events. *)
Definition stereo_settings (flags : Flags) : stereo.Settings :=
  {| stereo.use_every_nth_image := FLAGS_dense_pcl_use_every_nth_image flags |}.
Definition stereo_params (flags : Flags) : stereo.BlockMatchingParameters :=
  {| stereo.use_BM := FLAGS_use_BM flags |}.
Definition stereo_cloud (flags : Flags) (nc : NCamera) : PointCloud :=
  (addFrames (Stereo_new nc (stereo_settings flags) (stereo_params flags))
     (loaded_poses flags) (loaded_images flags) []).2.
Definition stereo_events (flags : Flags) (nc : NCamera) : list Event :=
  [EvStereoNew (stereo_settings flags) (stereo_params flags);
   EvAddFrames (loaded_poses flags) (loaded_images flags) (stereo_cloud flags nc)].

Definition map_settings (flags : Flags) : grid_map.Settings double :=
  {| grid_map.center_easting := FLAGS_backward_grid_center_easting flags;
     grid_map.center_northing := FLAGS_backward_grid_center_northing flags;
     grid_map.delta_easting := FLAGS_backward_grid_delta_easting flags;
     grid_map.delta_northing := FLAGS_backward_grid_delta_northing flags;
     grid_map.resolution := FLAGS_backward_grid_resolution flags |}.
Definition dsm_settings (flags : Flags) : dsm.Settings double :=
  {| dsm.center_easting := FLAGS_backward_grid_center_easting flags;
     dsm.center_northing := FLAGS_backward_grid_center_northing flags |}.

(** The grid map after the fusion of [point_cloud], and after the
    compositing of the whole input on top of it. *)
Definition fused_map (flags : Flags) (point_cloud : PointCloud) : Dsm * GridMap :=
  let d0 := Dsm_new (dsm_settings flags) (AerialGridMap_new (map_settings flags)) in
  Dsm_process d0.1 point_cloud d0.2.
Definition composited_map (flags : Flags) (nc : NCamera)
    (point_cloud : PointCloud) : GridMap :=
  let o0 := OrthoBackwardGrid_new nc
              (parseSettingsOrtho flags ortho_Settings_default)
              (fused_map flags point_cloud).2 in
  (OrthoBackwardGrid_process o0.1 (loaded_poses flags) (loaded_images flags) o0.2).2.

(** Fusion, then compositing, of the whole input. *)
Definition mapping_events (flags : Flags) (point_cloud : PointCloud) : list Event :=
  [EvGridMapNew (map_settings flags);
   EvDsmNew (dsm_settings flags);
   EvDsmProcess point_cloud;
   EvOrthoNew (parseSettingsOrtho flags ortho_Settings_default);
   EvOrthoProcess (loaded_poses flags) (loaded_images flags)].
End Stages.
End BatchRun.

(** ** The set-up of an incremental run

    Names for what the incremental program loads and constructs before
    its loop. *)

Module IncrementalRun.
Section Stages.
Context `{Env : Collaborators}.
Import Incremental.

Definition rig_path (flags : Flags) : string :=
  FLAGS_backward_grid_data_directory flags
    +:+ FLAGS_backward_grid_filename_camera_rig flags.
Definition poses_path (flags : Flags) : string :=
  FLAGS_backward_grid_data_directory flags
    +:+ FLAGS_backward_grid_filename_poses flags.
Definition images_prefix (flags : Flags) : string :=
  FLAGS_backward_grid_data_directory flags
    +:+ FLAGS_backward_grid_prefix_images flags.

Definition pose_format (flags : Flags) : io.PoseFormat :=
  to_format (FLAGS_backward_grid_pose_format flags).

Definition loaded_poses (flags : Flags) : Poses :=
  (loadPosesFromFile_names (pose_format flags) (poses_path flags)).1.
Definition image_names (flags : Flags) : list string :=
  (loadPosesFromFile_names (pose_format flags) (poses_path flags)).2.

(** The images: numbered ones when the pose file names none. *)
Definition loaded_images (flags : Flags) : Images :=
  match image_names flags with
  | [] =>
      loadImagesFromFile_opts (images_prefix flags) (length (loaded_poses flags))
        (FLAGS_backward_grid_colored_ortho flags)
        (FLAGS_backward_grid_show_images flags)
  | _ :: _ =>
      loadImagesFromFile_names (FLAGS_backward_grid_data_directory flags)
        (image_names flags)
        (FLAGS_backward_grid_colored_ortho flags)
        (FLAGS_backward_grid_show_images flags)
  end.
Definition load_images_event (flags : Flags) : Event :=
  match image_names flags with
  | [] =>
      EvLoadImagesOpts (images_prefix flags) (length (loaded_poses flags))
        (FLAGS_backward_grid_colored_ortho flags)
        (FLAGS_backward_grid_show_images flags)
  | _ :: _ =>
      EvLoadImagesNames (FLAGS_backward_grid_data_directory flags)
        (image_names flags)
        (FLAGS_backward_grid_colored_ortho flags)
        (FLAGS_backward_grid_show_images flags)
  end.

Definition map_settings (flags : Flags) : grid_map.Settings double :=
  {| grid_map.center_easting := FLAGS_backward_grid_center_easting flags;
     grid_map.center_northing := FLAGS_backward_grid_center_northing flags;
     grid_map.delta_easting := FLAGS_backward_grid_delta_easting flags;
     grid_map.delta_northing := FLAGS_backward_grid_delta_northing flags;
     grid_map.resolution := FLAGS_backward_grid_resolution flags |}.
Definition stereo_settings (flags : Flags) : stereo.Settings :=
  {| stereo.use_every_nth_image := FLAGS_dense_pcl_use_every_nth_image flags |}.
Definition stereo_params (flags : Flags) : stereo.BlockMatchingParameters :=
  {| stereo.use_BM := FLAGS_use_BM flags |}.
Definition dsm_settings (flags : Flags) : dsm.Settings double :=
  {| dsm.center_easting := FLAGS_backward_grid_center_easting flags;
     dsm.center_northing := FLAGS_backward_grid_center_northing flags |}.
Definition ortho_settings (flags : Flags) : ortho.Settings double :=
  {| ortho.show_orthomosaic_opencv :=
       FLAGS_backward_grid_show_orthomosaic_opencv flags;
     ortho.save_orthomosaic_jpg :=
       FLAGS_backward_grid_save_orthomosaic_jpg flags;
     ortho.orthomosaic_jpg_filename :=
       FLAGS_backward_grid_orthomosaic_jpg_filename flags;
     ortho.orthomosaic_elevation_m :=
       FLAGS_backward_grid_orthomosaic_elevation_m flags;
     ortho.use_digital_elevation_map :=
       FLAGS_backward_grid_use_digital_elevation_map flags;
     ortho.colored_ortho := FLAGS_backward_grid_colored_ortho flags;
     ortho.use_multi_threads := FLAGS_backward_grid_use_multi_threads flags |}.

(** Everything the program does before the loop, the rig included. *)
Definition setup_events (flags : Flags) : list Event :=
  [EvLoadCameraRig (rig_path flags);
   EvLoadPoses (pose_format flags) (poses_path flags);
   load_images_event flags;
   EvGridMapNew (map_settings flags);
   EvStereoNew (stereo_settings flags) (stereo_params flags);
   EvDsmNew (dsm_settings flags);
   EvOrthoNew (ortho_settings flags)].

(** The state in which the program enters the loop. *)
Definition entry (flags : Flags) (nc : NCamera) : LoopState :=
  let d0 := Dsm_new (dsm_settings flags) (AerialGridMap_new (map_settings flags)) in
  let o0 := OrthoBackwardGrid_new nc (ortho_settings flags) d0.2 in
  loop_init (Stereo_new nc (stereo_settings flags) (stereo_params flags))
    d0.1 o0.1 o0.2.

(** The program's result, from the loop's. *)
Definition exit_code (r : Res LoopState) : Res Z :=
  match r with
  | Ok _ => Ok 0
  | Fatal => Fatal
  | Undefined => Undefined
  end.
End Stages.
End IncrementalRun.

(** * Properties *)

(** Run the monad's plumbing on a program whose tests are decided. *)
Ltac run_prog :=
  cbv [bind call emit ret CHECK CHECK_ptr undefined publishOnce
       publishUntilShutdown negb empty fst snd];
  simpl.

(** ** Counting in traces *)

Section CountFacts.
Context `{Env : Collaborators}.

Lemma count_app f (t1 t2 : list Event) :
  count f (t1 ++ t2) = (count f t1 + count f t2)%nat.
Proof. unfold count. rewrite List.filter_app. apply length_app. Qed.

Lemma count_replicate_false f n (e : Event) :
  f e = false -> count f (replicate n e) = 0%nat.
Proof.
  intros He. unfold count. induction n as [|n IH]; simpl; [reflexivity|].
  rewrite He. exact IH.
Qed.

End CountFacts.

(** ** The batch program *)

Section BatchFacts.
Context `{Env : Collaborators}.
Import Batch BatchRun.

(** The rig does not load: the CHECK on the pointer ends the run. *)
Lemma main_no_rig flags :
  loadCameraRigFromFile (rig_path flags) = None ->
  main flags = ([EvLoadCameraRig (rig_path flags)], Fatal).
Proof.
  intros Hrig. unfold main. fold (rig_path flags). rewrite Hrig. reflexivity.
Qed.

(** Load-from-file without a file name: the CHECK on the name ends the
    run once the poses and images are loaded. *)
Lemma main_no_filename flags nc :
  loadCameraRigFromFile (rig_path flags) = Some nc ->
  FLAGS_load_point_cloud_from_file flags = true ->
  FLAGS_point_cloud_filename flags = EmptyString ->
  main flags = (EvLoadCameraRig (rig_path flags) :: loading_events flags, Fatal).
Proof.
  intros Hrig Hload Hname. unfold main, retrieve_point_cloud.
  fold (rig_path flags). rewrite Hrig, Hload, Hname. reflexivity.
Qed.

(** Load-from-file with a file name. *)
Lemma main_from_file flags nc :
  loadCameraRigFromFile (rig_path flags) = Some nc ->
  FLAGS_load_point_cloud_from_file flags = true ->
  FLAGS_point_cloud_filename flags <> EmptyString ->
  main flags =
    (EvLoadCameraRig (rig_path flags) :: loading_events flags
       ++ file_events flags
       ++ mapping_events flags (file_cloud flags)
       ++ replicate shutdown_after
            (EvPublish (composited_map flags nc (file_cloud flags))),
     Ok 0).
Proof.
  intros Hrig Hload Hname. unfold main, retrieve_point_cloud.
  fold (rig_path flags). rewrite Hrig, Hload.
  unfold file_events, file_cloud.
  destruct (FLAGS_point_cloud_filename flags) as [|c s] eqn:E; [congruence|].
  run_prog. rewrite app_nil_r. reflexivity.
Qed.

(** Dense reconstruction. *)
Lemma main_from_stereo flags nc :
  loadCameraRigFromFile (rig_path flags) = Some nc ->
  FLAGS_load_point_cloud_from_file flags = false ->
  main flags =
    (EvLoadCameraRig (rig_path flags) :: loading_events flags
       ++ stereo_events flags nc
       ++ mapping_events flags (stereo_cloud flags nc)
       ++ replicate shutdown_after
            (EvPublish (composited_map flags nc (stereo_cloud flags nc))),
     Ok 0).
Proof.
  intros Hrig Hload. unfold main, retrieve_point_cloud.
  fold (rig_path flags). rewrite Hrig, Hload.
  run_prog. rewrite app_nil_r. reflexivity.
Qed.

(** The four ways a batch run can go. *)
Lemma main_cases flags :
  main flags = ([EvLoadCameraRig (rig_path flags)], Fatal)
  \/ main flags = (EvLoadCameraRig (rig_path flags) :: loading_events flags, Fatal)
  \/ (exists nc,
        main flags =
          (EvLoadCameraRig (rig_path flags) :: loading_events flags
             ++ file_events flags
             ++ mapping_events flags (file_cloud flags)
             ++ replicate shutdown_after
                  (EvPublish (composited_map flags nc (file_cloud flags))),
           Ok 0))
  \/ (exists nc,
        main flags =
          (EvLoadCameraRig (rig_path flags) :: loading_events flags
             ++ stereo_events flags nc
             ++ mapping_events flags (stereo_cloud flags nc)
             ++ replicate shutdown_after
                  (EvPublish (composited_map flags nc (stereo_cloud flags nc))),
           Ok 0)).
Proof.
  destruct (loadCameraRigFromFile (rig_path flags)) as [nc|] eqn:Hrig.
  - destruct (FLAGS_load_point_cloud_from_file flags) eqn:Hload.
    + destruct (FLAGS_point_cloud_filename flags) as [|c s] eqn:Hname.
      * right; left. eapply main_no_filename; eauto.
      * right; right; left. exists nc. apply main_from_file; congruence.
    + right; right; right. exists nc. apply main_from_stereo; assumption.
  - left. apply main_no_rig; assumption.
Qed.

(** C5 (as amended): in batch mode nothing is published until loading,
    reconstruction (or the read of the point-cloud file), fusion and
    compositing have each run once over the entire input; the raster that
    compositing leaves is then published repeatedly until the external
    stop, and the run returns 0 after that. *)
Theorem batch_publishes_after_all_stages flags nc :
  loadCameraRigFromFile (rig_path flags) = Some nc ->
  (FLAGS_load_point_cloud_from_file flags = true ->
   FLAGS_point_cloud_filename flags <> EmptyString) ->
  exists recon point_cloud,
    let stages :=
      EvLoadCameraRig (rig_path flags) :: loading_events flags
        ++ recon ++ mapping_events flags point_cloud in
    main flags =
      (stages ++ replicate shutdown_after
                   (EvPublish (composited_map flags nc point_cloud)),
       Ok 0)
    /\ (recon = file_events flags /\ point_cloud = file_cloud flags
        \/ recon = stereo_events flags nc /\ point_cloud = stereo_cloud flags nc)
    /\ count is_publish stages = 0%nat.
Proof.
  intros Hrig Hname.
  destruct (FLAGS_load_point_cloud_from_file flags) eqn:Hload.
  - exists (file_events flags), (file_cloud flags). simpl. split; [|split].
    + rewrite (main_from_file flags nc Hrig Hload (Hname eq_refl)).
      reflexivity.
    + left. split; reflexivity.
    + reflexivity.
  - exists (stereo_events flags nc), (stereo_cloud flags nc). simpl.
    split; [|split].
    + rewrite (main_from_stereo flags nc Hrig Hload).
      reflexivity.
    + right. split; reflexivity.
    + reflexivity.
Qed.

(** C8: the point-cloud source is chosen by the flag alone. Load-from-file
    with an empty file name is fatal before any reconstruction, fusion,
    compositing or publishing; with a file name the cloud that is fused
    is the file's and no reconstruction runs; without load-from-file the
    cloud that is fused is the one reconstructed from the loaded poses
    and images, and no file is read. *)
Theorem point_cloud_source flags :
  (FLAGS_load_point_cloud_from_file flags = true ->
   FLAGS_point_cloud_filename flags = EmptyString ->
   exists t, main flags = (t, Fatal)
     /\ count is_stereo_event t = 0%nat /\ count is_pass_event t = 0%nat)
  /\ (forall nc,
        loadCameraRigFromFile (rig_path flags) = Some nc ->
        FLAGS_load_point_cloud_from_file flags = true ->
        FLAGS_point_cloud_filename flags <> EmptyString ->
        exists t1 t2,
          main flags =
            (t1 ++ file_events flags
                ++ mapping_events flags (file_cloud flags) ++ t2, Ok 0)
          /\ count is_pass_event t1 = 0%nat
          /\ count is_dsm_process t2 = 0%nat
          /\ count is_stereo_event (main flags).1 = 0%nat)
  /\ (forall nc,
        loadCameraRigFromFile (rig_path flags) = Some nc ->
        FLAGS_load_point_cloud_from_file flags = false ->
        exists t1 t2,
          main flags =
            (t1 ++ stereo_events flags nc
                ++ mapping_events flags (stereo_cloud flags nc) ++ t2, Ok 0)
          /\ count is_pass_event t1 = 0%nat
          /\ count is_dsm_process t2 = 0%nat
          /\ count is_load_point_cloud (main flags).1 = 0%nat).
Proof.
  split; [|split].
  - intros Hload Hname.
    destruct (loadCameraRigFromFile (rig_path flags)) as [nc|] eqn:Hrig.
    + rewrite (main_no_filename flags nc Hrig Hload Hname).
      eexists; split; [reflexivity|]. split; reflexivity.
    + rewrite (main_no_rig flags Hrig).
      eexists; split; [reflexivity|]. split; reflexivity.
  - intros nc Hrig Hload Hname.
    rewrite (main_from_file flags nc Hrig Hload Hname).
    exists (EvLoadCameraRig (rig_path flags) :: loading_events flags).
    eexists. split; [|split; [|split]].
    + simpl. reflexivity.
    + reflexivity.
    + apply count_replicate_false. reflexivity.
    + cbn [fst]. change (?a :: ?l ++ ?r) with ((a :: l) ++ r).
      rewrite !count_app, count_replicate_false by reflexivity. reflexivity.
  - intros nc Hrig Hload.
    rewrite (main_from_stereo flags nc Hrig Hload).
    exists (EvLoadCameraRig (rig_path flags) :: loading_events flags).
    eexists. split; [|split; [|split]].
    + simpl. reflexivity.
    + reflexivity.
    + apply count_replicate_false. reflexivity.
    + cbn [fst]. change (?a :: ?l ++ ?r) with ((a :: l) ++ r).
      rewrite !count_app, count_replicate_false by reflexivity. reflexivity.
Qed.
End BatchFacts.

(** ** The incremental program *)

Section LoopFacts.
Context `{Env : Collaborators}.
Import Incremental.

Variable flags : Flags.
Variable T_G_Bs : Poses.
Variable images : Images.

Local Abbreviation body := (loop_body flags T_G_Bs images).

(** One iteration, by cases on the two tests of the loop body. *)
Lemma loop_body_idle s i T_G_B image :
  T_G_Bs !! i = Some T_G_B -> images !! i = Some image ->
  window flags <> 0 ->
  size_t (skip s + 1) mod window flags <> 0 ->
  body s i = ([], Ok (idle_step s T_G_B image)).
Proof.
  intros Hp Him Hd Hm. unfold loop_body, at_index, rem. rewrite Hp, Him.
  fold (window flags).
  destruct (Z.eqb_spec (window flags) 0) as [|_]; [contradiction|].
  run_prog.
  destruct (Z.eqb_spec (size_t (skip s + 1) mod window flags) 0); [contradiction|].
  reflexivity.
Qed.

Lemma loop_body_reconstruct s i T_G_B image :
  T_G_Bs !! i = Some T_G_B -> images !! i = Some image ->
  window flags <> 0 ->
  size_t (skip s + 1) mod window flags = 0 ->
  pcl_cnt s <= 0 ->
  body s i = (reconstruct_events s T_G_B image, Ok (reconstruct_step s T_G_B image)).
Proof.
  intros Hp Him Hd Hm Hc. unfold loop_body, at_index, rem. rewrite Hp, Him.
  fold (window flags).
  destruct (Z.eqb_spec (window flags) 0) as [|_]; [contradiction|].
  run_prog. rewrite Hm. simpl.
  destruct (Z.ltb_spec 0 (pcl_cnt s)); [lia|].
  reflexivity.
Qed.

Lemma loop_body_pass s i T_G_B image :
  T_G_Bs !! i = Some T_G_B -> images !! i = Some image ->
  window flags <> 0 ->
  size_t (skip s + 1) mod window flags = 0 ->
  0 < pcl_cnt s ->
  body s i = (pass_events s T_G_B image, Ok (pass_step s T_G_B image)).
Proof.
  intros Hp Him Hd Hm Hc. unfold loop_body, at_index, rem. rewrite Hp, Him.
  fold (window flags).
  destruct (Z.eqb_spec (window flags) 0) as [|_]; [contradiction|].
  run_prog. rewrite Hm. simpl.
  destruct (Z.ltb_spec 0 (pcl_cnt s)); [|lia].
  reflexivity.
Qed.

Lemma window_range : 0 <= window flags < 2 ^ 64.
Proof. unfold window, size_t. apply Z.mod_pos_bound. lia. Qed.

Variable stereo0 : Stereo.
Variable dsm0 : Dsm.
Variable mosaic0 : OrthoBackwardGrid.
Variable map0 : GridMap.

Local Abbreviation init := (loop_init stereo0 dsm0 mosaic0 map0).
Local Abbreviation run := (fun k => for_loop body k init).
Local Abbreviation reached := (reaches flags T_G_Bs images init).

(** The loop follows the step relation as long as the frames last. *)
Lemma run_reaches k :
  window flags <> 0 ->
  (length images <= length T_G_Bs)%nat ->
  (k <= length images)%nat ->
  exists t s, run k = (t, Ok s) /\ reached k t s.
Proof.
  intros Hd Hlen. induction k as [|k IH]; intros Hk.
  - exists [], init. split; [reflexivity | constructor].
  - destruct IH as (t & s & Hrun & Hreach); [lia|].
    destruct (lookup_lt_is_Some_2 images k) as [image Him]; [lia|].
    destruct (lookup_lt_is_Some_2 T_G_Bs k) as [T_G_B Hp]; [lia|].
    cbn [for_loop]. rewrite Hrun. unfold bind. cbn [fst snd].
    destruct (Z.eq_dec (size_t (skip s + 1) mod window flags) 0) as [Hm|Hm].
    + destruct (Z_lt_dec 0 (pcl_cnt s)) as [Hc|Hc].
      * rewrite (loop_body_pass s k T_G_B image) by assumption.
        eexists _, _. split; [reflexivity|]. by constructor.
      * rewrite (loop_body_reconstruct s k T_G_B image) by (assumption || lia).
        eexists _, _. split; [reflexivity|]. constructor; (assumption || lia).
    + rewrite (loop_body_idle s k T_G_B image) by assumption.
      exists t, (idle_step s T_G_B image). cbn [fst snd]. rewrite app_nil_r.
      split; [reflexivity|]. by constructor.
Qed.

(** Conversely, what the relation reaches is what the loop computes. *)
Lemma reaches_run k t s :
  window flags <> 0 -> reached k t s -> run k = (t, Ok s).
Proof.
  intros Hd. induction 1 as [|k t s p im _ IH Hp Him Hm
                             |k t s p im _ IH Hp Him Hm Hc
                             |k t s p im _ IH Hp Him Hm Hc].
  - reflexivity.
  - cbn [for_loop]. rewrite IH. unfold bind. cbn [fst snd].
    rewrite (loop_body_idle s k p im) by assumption.
    cbn [fst snd]. by rewrite app_nil_r.
  - cbn [for_loop]. rewrite IH. unfold bind. cbn [fst snd].
    by rewrite (loop_body_reconstruct s k p im) by assumption.
  - cbn [for_loop]. rewrite IH. unfold bind. cbn [fst snd].
    by rewrite (loop_body_pass s k p im) by assumption.
Qed.

Lemma div_succ_stay d k :
  0 < d -> 0 <= k -> (k + 1) mod d <> 0 -> (k + 1) / d = k / d.
Proof. intros Hd Hk Hm. Z.div_mod_to_equations. nia. Qed.

Lemma div_succ_next d k :
  0 < d -> 0 <= k -> (k + 1) mod d = 0 -> (k + 1) / d = k / d + 1.
Proof. intros Hd Hk Hm. Z.div_mod_to_equations. nia. Qed.

Lemma mod_succ_stay d k :
  0 < d -> 0 <= k -> (k + 1) mod d <> 0 -> (k + 1) mod d = k mod d + 1.
Proof.
  intros Hd Hk Hm. rewrite (Z.mod_eq (k + 1)), (Z.mod_eq k) by lia.
  rewrite div_succ_stay by assumption. lia.
Qed.

(** With fewer than 2^64 frames the two counters never wrap: [skip]
    counts the frames consumed and [pcl_cnt] the windows completed. *)
Lemma reaches_counters k t s :
  window flags <> 0 ->
  Z.of_nat (length images) < 2 ^ 64 ->
  reached k t s ->
  skip s = Z.of_nat k /\ pcl_cnt s = Z.of_nat k / window flags.
Proof.
  intros Hd Hsz Hr. pose proof window_range as Hw.
  induction Hr as [|k t s p im Hr [IHs IHc] Hp Him Hm
                   |k t s p im Hr [IHs IHc] Hp Him Hm Hc
                   |k t s p im Hr [IHs IHc] Hp Him Hm Hc];
    [split; reflexivity | | |];
    pose proof (lookup_lt_Some _ _ _ Him) as Hlt;
    assert (Hwrap : size_t (skip s + 1) = Z.of_nat (S k))
      by (unfold size_t; rewrite IHs, Z.mod_small; lia);
    rewrite Hwrap in Hm; cbn [skip pcl_cnt idle_step reconstruct_step pass_step];
    (split; [exact Hwrap|]);
    replace (Z.of_nat (S k)) with (Z.of_nat k + 1) in * by lia.
  - rewrite div_succ_stay by lia. exact IHc.
  - rewrite div_succ_next by lia. rewrite IHc. unfold size_t.
    apply Z.mod_small. split; [apply Z.add_nonneg_nonneg; [apply Z.div_pos|]; lia|].
    assert (Z.of_nat k / window flags <= Z.of_nat k) by (apply Z.div_le_upper_bound; nia).
    lia.
  - rewrite div_succ_next by lia. rewrite IHc. unfold size_t.
    apply Z.mod_small. split; [apply Z.add_nonneg_nonneg; [apply Z.div_pos|]; lia|].
    assert (Z.of_nat k / window flags <= Z.of_nat k) by (apply Z.div_le_upper_bound; nia).
    lia.
Qed.

Lemma ortho_images_app (t u : list Event) :
  ortho_images (t ++ u) = ortho_images t ++ ortho_images u.
Proof. apply omap_app. Qed.

Lemma ortho_poses_app (t u : list Event) :
  ortho_poses (t ++ u) = ortho_poses t ++ ortho_poses u.
Proof. apply omap_app. Qed.

(** The windows composited so far, followed by the pending window, are
    the frames consumed so far, in order. *)
Lemma reaches_partition k t s :
  reached k t s ->
  concat (ortho_images t) ++ images_subset s = take k images
  /\ concat (ortho_poses t) ++ T_G_Bs_subset s = take k T_G_Bs.
Proof.
  induction 1 as [|k t s p im _ [IHi IHp] Hp Him Hm
                  |k t s p im _ [IHi IHp] Hp Him Hm Hc
                  |k t s p im _ [IHi IHp] Hp Him Hm Hc].
  - split; reflexivity.
  - rewrite (take_S_r _ _ _ Him), (take_S_r _ _ _ Hp), <- IHi, <- IHp.
    cbn [images_subset T_G_Bs_subset idle_step]. by rewrite !app_assoc.
  - rewrite (take_S_r _ _ _ Him), (take_S_r _ _ _ Hp), <- IHi, <- IHp.
    rewrite ortho_images_app, ortho_poses_app.
    cbn [images_subset T_G_Bs_subset reconstruct_step reconstruct_events
         ortho_images ortho_poses omap list_omap].
    by rewrite !app_nil_r, !app_assoc.
  - rewrite (take_S_r _ _ _ Him), (take_S_r _ _ _ Hp), <- IHi, <- IHp.
    rewrite ortho_images_app, ortho_poses_app, !concat_app.
    cbn [images_subset T_G_Bs_subset pass_step pass_events
         ortho_images ortho_poses omap list_omap concat].
    by rewrite !app_nil_r, !app_assoc.
Qed.

(** Size of the pending window: everything until two windows have
    completed, then what came after the last completed window. *)
Lemma reaches_pending k t s :
  window flags <> 0 ->
  Z.of_nat (length images) < 2 ^ 64 ->
  reached k t s ->
  Z.of_nat (length (images_subset s)) =
    if Z.of_nat k / window flags <? 2 then Z.of_nat k
    else Z.of_nat k mod window flags.
Proof.
  intros Hd Hsz Hr. pose proof window_range as Hw.
  induction Hr as [|k t s p im Hr IH Hp Him Hm
                   |k t s p im Hr IH Hp Him Hm Hc
                   |k t s p im Hr IH Hp Him Hm Hc];
    [reflexivity | | |];
    destruct (reaches_counters k t s Hd Hsz Hr) as [Hs Hcnt];
    pose proof (lookup_lt_Some _ _ _ Him) as Hlt;
    assert (Hwrap : size_t (skip s + 1) = Z.of_nat k + 1)
      by (unfold size_t; rewrite Hs, Z.mod_small; lia);
    rewrite Hwrap in Hm;
    replace (Z.of_nat (S k)) with (Z.of_nat k + 1) by lia.
  - cbn [images_subset idle_step]. rewrite length_app, Nat2Z.inj_add, IH.
    rewrite div_succ_stay by lia. cbn [length].
    destruct (Z.ltb_spec (Z.of_nat k / window flags) 2); [lia|].
    rewrite mod_succ_stay by lia. lia.
  - cbn [images_subset reconstruct_step]. rewrite length_app, Nat2Z.inj_add, IH.
    rewrite div_succ_next by lia.
    assert (0 <= Z.of_nat k / window flags) by (apply Z.div_pos; lia).
    destruct (Z.ltb_spec (Z.of_nat k / window flags) 2); [|lia].
    destruct (Z.ltb_spec (Z.of_nat k / window flags + 1) 2); [|lia].
    reflexivity.
  - cbn [images_subset pass_step length].
    rewrite div_succ_next by lia.
    destruct (Z.ltb_spec (Z.of_nat k / window flags + 1) 2); [lia|].
    by rewrite Hm.
Qed.

(** One reconstruction per completed window, and one fusion, one
    compositing and one publication per completed window but the first. *)
Lemma reaches_counts k t s :
  window flags <> 0 ->
  Z.of_nat (length images) < 2 ^ 64 ->
  reached k t s ->
  count is_add_frame t = Z.to_nat (Z.of_nat k / window flags)
  /\ count is_dsm_process t = (Z.to_nat (Z.of_nat k / window flags) - 1)%nat
  /\ count is_ortho_process t = (Z.to_nat (Z.of_nat k / window flags) - 1)%nat
  /\ count is_publish t = (Z.to_nat (Z.of_nat k / window flags) - 1)%nat.
Proof.
  intros Hd Hsz Hr. pose proof window_range as Hw.
  induction Hr as [|k t s p im Hr IH Hp Him Hm
                   |k t s p im Hr IH Hp Him Hm Hc
                   |k t s p im Hr IH Hp Him Hm Hc];
    [repeat split; reflexivity | | |];
    destruct (reaches_counters k t s Hd Hsz Hr) as [Hs Hcnt];
    pose proof (lookup_lt_Some _ _ _ Him) as Hlt;
    assert (Hwrap : size_t (skip s + 1) = Z.of_nat k + 1)
      by (unfold size_t; rewrite Hs, Z.mod_small; lia);
    rewrite Hwrap in Hm;
    assert (0 <= Z.of_nat k / window flags) by (apply Z.div_pos; lia);
    replace (Z.of_nat (S k)) with (Z.of_nat k + 1) by lia.
  - rewrite div_succ_stay by lia. exact IH.
  - rewrite div_succ_next by lia. rewrite !count_app.
    destruct IH as (-> & -> & -> & ->). unfold count. cbn. lia.
  - rewrite div_succ_next by lia. rewrite !count_app.
    destruct IH as (-> & -> & -> & ->). unfold count. cbn. lia.
Qed.

Lemma first_window d k :
  0 < d -> 0 <= k -> (k + 1) mod d = 0 -> k / d <= 0 -> k + 1 = d.
Proof.
  intros Hd Hk Hm Hq. pose proof (div_succ_next d k Hd Hk Hm) as Hn.
  assert (0 <= k / d) by (apply Z.div_pos; lia).
  rewrite (Z.div_mod (k + 1) d) by lia. rewrite Hm, Hn. nia.
Qed.

(** What iteration [i] does, by the position of the frame: nothing but
    keep the frame unless [i + 1] is a multiple of the window; the
    reconstruction alone when [i + 1] is the window; a whole pass at
    every later multiple. *)
Lemma iteration_cases i :
  window flags <> 0 ->
  (length images <= length T_G_Bs)%nat ->
  Z.of_nat (length images) < 2 ^ 64 ->
  (i < length images)%nat ->
  exists t s T_G_B image,
    reached i t s /\ T_G_Bs !! i = Some T_G_B /\ images !! i = Some image
    /\ iteration_events flags T_G_Bs images init i = (body s i).1
    /\ ((Z.of_nat i + 1) mod window flags <> 0
        /\ body s i = ([], Ok (idle_step s T_G_B image))
        \/ Z.of_nat i + 1 = window flags
           /\ body s i = (reconstruct_events s T_G_B image,
                          Ok (reconstruct_step s T_G_B image))
        \/ (Z.of_nat i + 1) mod window flags = 0
           /\ window flags < Z.of_nat i + 1
           /\ body s i = (pass_events s T_G_B image,
                          Ok (pass_step s T_G_B image))).
Proof.
  intros Hd Hlen Hsz Hi. pose proof window_range as Hw.
  destruct (run_reaches i Hd Hlen) as (t & s & Hrun & Hr); [lia|].
  destruct (reaches_counters i t s Hd Hsz Hr) as [Hs Hc].
  destruct (lookup_lt_is_Some_2 images i) as [image Him]; [lia|].
  destruct (lookup_lt_is_Some_2 T_G_Bs i) as [T_G_B Hp]; [lia|].
  exists t, s, T_G_B, image. repeat (split; [assumption|]).
  assert (Hwrap : size_t (skip s + 1) = Z.of_nat i + 1)
    by (unfold size_t; rewrite Hs, Z.mod_small; lia).
  split; [unfold iteration_events; by rewrite Hrun|].
  destruct (Z.eq_dec ((Z.of_nat i + 1) mod window flags) 0) as [Hm|Hm].
  - destruct (Z_lt_dec 0 (pcl_cnt s)) as [Hpos|Hpos].
    + right; right. rewrite (loop_body_pass s i T_G_B image)
        by (try rewrite Hwrap; assumption).
      repeat split; [assumption|].
      rewrite Hc in Hpos.
      assert (window flags <= Z.of_nat i); [|lia].
      destruct (Z_le_gt_dec (window flags) (Z.of_nat i)); [assumption|].
      rewrite Z.div_small in Hpos; lia.
    + right; left. rewrite (loop_body_reconstruct s i T_G_B image)
        by (try rewrite Hwrap; assumption || lia).
      split; [|reflexivity]. apply first_window; lia.
  - left. rewrite (loop_body_idle s i T_G_B image)
      by (try rewrite Hwrap; assumption).
    split; [assumption | reflexivity].
Qed.

(** The trace of the loop is what its iterations add, in order. *)
Lemma reaches_trace k t s :
  window flags <> 0 ->
  reached k t s ->
  t = concat (List.map (iteration_events flags T_G_Bs images init) (seq 0 k)).
Proof.
  intros Hd. induction 1 as [|k t s p im Hr IH Hp Him Hm
                             |k t s p im Hr IH Hp Him Hm Hc
                             |k t s p im Hr IH Hp Him Hm Hc];
    [reflexivity | | |];
    rewrite seq_S, List.map_app, concat_app, <- IH; cbn [List.map concat plus];
    unfold iteration_events; rewrite (reaches_run k t s Hd Hr); cbn [snd].
  - rewrite (loop_body_idle s k p im) by assumption. by rewrite !app_nil_r.
  - rewrite (loop_body_reconstruct s k p im) by assumption. by rewrite !app_nil_r.
  - rewrite (loop_body_pass s k p im) by assumption. by rewrite !app_nil_r.
Qed.

(** Whatever the tests of the body decide, and whether or not it fails,
    an iteration adds nothing, a reconstruction, or a whole pass. *)
Lemma loop_body_trace s i :
  (body s i).1 = []
  \/ (exists T_G_B image, (body s i).1 = reconstruct_events s T_G_B image)
  \/ (exists T_G_B image, (body s i).1 = pass_events s T_G_B image).
Proof.
  unfold loop_body, at_index, rem.
  destruct (images !! i) as [image|]; [|left; reflexivity].
  destruct (T_G_Bs !! i) as [T_G_B|]; [|left; reflexivity].
  destruct (size_t (FLAGS_dense_pcl_use_every_nth_image flags) =? 0);
    [left; reflexivity|].
  run_prog.
  destruct (_ mod _ =? 0); [|left; reflexivity].
  destruct (0 <? pcl_cnt s); cbn [fst].
  - right; right. by exists T_G_B, image.
  - right; left. by exists T_G_B, image.
Qed.

(** Induction over the trace of the loop, failing runs included. *)
Lemma for_loop_trace_ind (P : list Event -> Prop) (st : LoopState) :
  P [] ->
  (forall t s i, P t -> P (t ++ (body s i).1)) ->
  forall k, P (for_loop body k st).1.
Proof.
  intros Hnil Hstep. induction k as [|k IH]; [exact Hnil|].
  cbn [for_loop]. unfold bind.
  destruct (for_loop body k st) as [t [s| |]]; cbn [fst snd] in *;
    [by apply Hstep | assumption | assumption].
Qed.

(** The relation does not look at the frames beyond those it consumed. *)
Lemma reaches_take n k t s :
  reached k t s -> (k <= n)%nat ->
  reaches flags T_G_Bs (take n images) init k t s.
Proof.
  induction 1 as [|k t s p im Hr IH Hp Him Hm
                  |k t s p im Hr IH Hp Him Hm Hc
                  |k t s p im Hr IH Hp Him Hm Hc]; intros Hn.
  - constructor.
  - apply reach_idle; [apply IH; lia | assumption | | assumption].
    rewrite lookup_take_lt by lia. assumption.
  - apply reach_reconstruct; [apply IH; lia | assumption | | assumption..].
    rewrite lookup_take_lt by lia. assumption.
  - apply reach_pass; [apply IH; lia | assumption | | assumption..].
    rewrite lookup_take_lt by lia. assumption.
Qed.

(** A pending window shorter than the window size holds exactly the
    frames consumed since the point [j] where the trace and the objects
    were last touched. *)
Lemma reaches_since_boundary k t s :
  window flags <> 0 ->
  Z.of_nat (length images) < 2 ^ 64 ->
  reached k t s ->
  exists j s0,
    (j <= k)%nat /\ reaches flags T_G_Bs images init j t s0
    /\ stereo_ s0 = stereo_ s
    /\ digital_surface_map s0 = digital_surface_map s
    /\ mosaic s0 = mosaic s
    /\ map_ s0 = map_ s
    /\ (Z.of_nat (length (images_subset s)) < window flags ->
        length (images_subset s) = (k - j)%nat).
Proof.
  intros Hd Hsz Hr. pose proof window_range as Hw.
  induction Hr as [|k t s p im Hr IH Hp Him Hm
                   |k t s p im Hr IH Hp Him Hm Hc
                   |k t s p im Hr IH Hp Him Hm Hc].
  - exists 0%nat, init. split; [lia|]. split; [constructor|].
    repeat (split; [reflexivity|]). intros _. reflexivity.
  - destruct IH as (j & s0 & Hj & Hr0 & Hst & Hds & Hmo & Hmap & Hpend).
    exists j, s0. split; [lia|]. repeat (split; [assumption|]).
    cbn [images_subset idle_step]. rewrite length_app. cbn [length].
    intros Hshort. rewrite Hpend by lia. lia.
  - exists (S k), (reconstruct_step s p im).
    split; [lia|]. split; [by constructor|]. repeat (split; [reflexivity|]).
    intros Hshort. exfalso.
    pose proof (reach_reconstruct _ _ _ _ _ _ _ _ _ Hr Hp Him Hm Hc) as Hr'.
    pose proof (reaches_pending _ _ _ Hd Hsz Hr') as Hlen'.
    destruct (reaches_counters k t s Hd Hsz Hr) as [Hs Hcnt].
    pose proof (lookup_lt_Some _ _ _ Him) as Hlt.
    assert (Hwrap : size_t (skip s + 1) = Z.of_nat k + 1)
      by (unfold size_t; rewrite Hs, Z.mod_small; lia).
    rewrite Hwrap in Hm. rewrite Hcnt in Hc.
    pose proof (first_window (window flags) (Z.of_nat k)) as Hfirst.
    replace (Z.of_nat (S k)) with (window flags) in Hlen' by lia.
    rewrite Z.div_same in Hlen' by lia.
    cbn [images_subset reconstruct_step] in Hshort, Hlen'.
    change (1 <? 2) with true in Hlen'. lia.
  - exists (S k), (pass_step s p im).
    split; [lia|]. split; [by constructor|]. repeat (split; [reflexivity|]).
    intros _. cbn [images_subset pass_step length]. lia.
Qed.

(** Every fused cloud is the one the reconstruction call just before it
    left in an empty vector. *)
Lemma loop_fusions_fresh (st : LoopState) k t1 pc t2 :
  (for_loop body k st).1 = t1 ++ EvDsmProcess pc :: t2 ->
  exists t0 stereo T_G_B image,
    t1 = t0 ++ [EvAddFrame T_G_B image pc]
    /\ pc = (addFrame stereo T_G_B image []).2.
Proof.
  revert t1 pc t2. apply for_loop_trace_ind.
  - intros t1 pc t2 Heq. by destruct t1.
  - intros t s i IH t1 pc t2 Heq.
    apply app_eq_app in Heq as [l [[Ht Hu]|[Ht1 Hu]]].
    + destruct l as [|e l].
      * destruct (loop_body_trace s i) as [Hb|[(p & im & Hb)|(p & im & Hb)]];
          rewrite Hb in Hu; discriminate Hu.
      * rewrite <- app_comm_cons in Hu. injection Hu as <- _.
        by apply (IH t1 pc l).
    + destruct (loop_body_trace s i) as [Hb|[(p & im & Hb)|(p & im & Hb)]];
        rewrite Hb in Hu.
      * by destruct l.
      * destruct l as [|? [|? ?]]; discriminate Hu.
      * destruct l as [|a [|b [|c [|d l]]]]; try discriminate Hu.
        -- injection Hu as <- <- _.
           exists t, (stereo_ s), p, im. split; [assumption | reflexivity].
        -- injection Hu as _ _ _ _ Hnil. by destruct l.
Qed.

(** The loop only ever calls [addFrame], the fuser, the compositor and
    the publisher. *)
Lemma loop_events (st : LoopState) k :
  Forall (fun e => is_add_frame e || is_pass_event e = true)
         (for_loop body k st).1.
Proof.
  apply for_loop_trace_ind; [constructor|].
  intros t s i IH. apply Forall_app. split; [assumption|].
  destruct (loop_body_trace s i) as [Hb|[(p & im & Hb)|(p & im & Hb)]];
    rewrite Hb; repeat constructor.
Qed.
End LoopFacts.

(** ** The incremental program as a whole *)

Section IncrementalFacts.
Context `{Env : Collaborators}.
Import Incremental IncrementalRun.

Lemma incremental_no_rig flags :
  loadCameraRigFromFile (rig_path flags) = None ->
  main flags = ([EvLoadCameraRig (rig_path flags)], Fatal).
Proof.
  intros Hrig. unfold main. fold (rig_path flags). rewrite Hrig. reflexivity.
Qed.

(** With a rig, the program is its set-up followed by the loop. *)
Lemma incremental_with_rig flags nc :
  loadCameraRigFromFile (rig_path flags) = Some nc ->
  main flags =
    let r := run_incrementally flags (loaded_poses flags) (loaded_images flags)
               (entry flags nc) in
    (setup_events flags ++ r.1, exit_code r.2).
Proof.
  intros Hrig. unfold main. fold (rig_path flags). rewrite Hrig.
  unfold setup_events, load_images_event, loaded_images, entry, loaded_poses,
    image_names, pose_format.
  fold (poses_path flags). fold (images_prefix flags).
  destruct (loadPosesFromFile_names _ _) as [poses [|name names]]; run_prog;
    destruct (run_incrementally _ _ _ _) as [t [s| |]]; cbn; try reflexivity;
    by rewrite app_nil_r.
Qed.
End IncrementalFacts.

(** ** The incremental loop: windows, passes and the stride *)

Section IncrementalClaims.
Context `{Env : Collaborators}.
Import Incremental IncrementalRun.

(** C2: at every point of the loop the windows handed to the compositor
    so far, followed by the pending window, are exactly the frames (and
    the poses) consumed so far, in order, so that no frame is handed over
    twice; and an iteration that calls the compositor hands it the
    pending window with the current frame appended and leaves both
    buffers empty. *)
Theorem window_composited_once_then_cleared
    flags (T_G_Bs : Poses) (images : Images) stereo0 dsm0 mosaic0 map0 i :
  window flags <> 0 ->
  (length images <= length T_G_Bs)%nat ->
  Z.of_nat (length images) < 2 ^ 64 ->
  (i < length images)%nat ->
  exists t s t' s' T_G_B image,
    for_loop (loop_body flags T_G_Bs images) i
        (loop_init stereo0 dsm0 mosaic0 map0) = (t, Ok s)
    /\ for_loop (loop_body flags T_G_Bs images) (S i)
         (loop_init stereo0 dsm0 mosaic0 map0) = (t', Ok s')
    /\ T_G_Bs !! i = Some T_G_B /\ images !! i = Some image
    /\ concat (ortho_images t) ++ images_subset s = take i images
    /\ concat (ortho_poses t) ++ T_G_Bs_subset s = take i T_G_Bs
    /\ concat (ortho_images t') ++ images_subset s' = take (S i) images
    /\ concat (ortho_poses t') ++ T_G_Bs_subset s' = take (S i) T_G_Bs
    /\ (forall ps ims,
          In (EvOrthoProcess ps ims)
             (iteration_events flags T_G_Bs images
                (loop_init stereo0 dsm0 mosaic0 map0) i) ->
          ps = T_G_Bs_subset s ++ [T_G_B]
          /\ ims = images_subset s ++ [image]
          /\ images_subset s' = [] /\ T_G_Bs_subset s' = []).
Proof.
  intros Hd Hlen Hsz Hi.
  destruct (iteration_cases flags T_G_Bs images stereo0 dsm0 mosaic0 map0
              i Hd Hlen Hsz Hi)
    as (t & s & p & im & Hr & Hp & Him & Hit & Hcase).
  destruct (run_reaches flags T_G_Bs images stereo0 dsm0 mosaic0 map0
              (S i) Hd Hlen) as (t' & s' & Hrun' & Hr'); [lia|].
  pose proof (reaches_run _ _ _ _ _ _ _ _ _ _ Hd Hr) as Hrun.
  destruct (reaches_partition _ _ _ _ _ _ _ _ _ _ Hr) as [Hpi Hpp].
  destruct (reaches_partition _ _ _ _ _ _ _ _ _ _ Hr') as [Hpi' Hpp'].
  exists t, s, t', s', p, im. repeat (split; [assumption|]).
  intros ps ims Hin. rewrite Hit in Hin.
  cbn [for_loop] in Hrun'. rewrite Hrun in Hrun'. unfold bind in Hrun'.
  cbn [fst snd] in Hrun'.
  destruct Hcase as [[_ Hbody]|[[_ Hbody]|(_ & _ & Hbody)]];
    rewrite Hbody in Hin, Hrun'; cbn [fst snd] in Hin, Hrun'.
  - destruct Hin.
  - destruct Hin as [Hin|[]]. discriminate Hin.
  - injection Hrun' as <- <-.
    destruct Hin as [Hin|[Hin|[Hin|[Hin|[]]]]]; try discriminate Hin.
    injection Hin as <- <-. repeat split; reflexivity.
Qed.

(** C3 (as amended): with stride 5 and 12 frames there is exactly one
    fusion, compositing and publication pass. The fifth frame is
    reconstructed and its points go nowhere; the tenth frame is
    reconstructed, its points alone are fused, the first ten frames are
    composited and the map is published; the last two frames stay in the
    window buffers and reach no collaborator. *)
Theorem scenario_B_single_pass
    flags stereo0 dsm0 mosaic0 map0
    (p0 p1 p2 p3 p4 p5 p6 p7 p8 p9 p10 p11 : Pose)
    (i0 i1 i2 i3 i4 i5 i6 i7 i8 i9 i10 i11 : Image) :
  FLAGS_dense_pcl_use_every_nth_image flags = 5 ->
  let first := addFrame stereo0 p4 i4 [] in
  let second := addFrame first.1 p9 i9 [] in
  let fusion := Dsm_process dsm0 second.2 map0 in
  let compositing :=
    OrthoBackwardGrid_process mosaic0
      [p0; p1; p2; p3; p4; p5; p6; p7; p8; p9]
      [i0; i1; i2; i3; i4; i5; i6; i7; i8; i9] fusion.2 in
  run_incrementally flags
    [p0; p1; p2; p3; p4; p5; p6; p7; p8; p9; p10; p11]
    [i0; i1; i2; i3; i4; i5; i6; i7; i8; i9; i10; i11]
    (loop_init stereo0 dsm0 mosaic0 map0)
  = ([EvAddFrame p4 i4 first.2;
      EvAddFrame p9 i9 second.2;
      EvDsmProcess second.2;
      EvOrthoProcess [p0; p1; p2; p3; p4; p5; p6; p7; p8; p9]
                     [i0; i1; i2; i3; i4; i5; i6; i7; i8; i9];
      EvPublish compositing.2],
     Ok {| images_subset := [i10; i11];
           T_G_Bs_subset := [p10; p11];
           skip := 12;
           pcl_cnt := 2;
           stereo_ := second.1;
           digital_surface_map := fusion.1;
           mosaic := compositing.1;
           map_ := compositing.2 |}).
Proof.
  intros Hstride. unfold run_incrementally, loop_body.
  rewrite Hstride. reflexivity.
Qed.

Lemma reaches_buffers flags (T_G_Bs : Poses) (images : Images) init k t s :
  reaches flags T_G_Bs images init k t s ->
  length (images_subset init) = length (T_G_Bs_subset init) ->
  length (images_subset s) = length (T_G_Bs_subset s).
Proof.
  induction 1; intros Hinit; cbn [images_subset T_G_Bs_subset idle_step
    reconstruct_step pass_step]; rewrite ?length_app; auto.
Qed.

(** C4: the incremental program returns 0 when its frames run out; and
    if the window buffer then holds fewer frames than the window size,
    these are the last frames of the input, and a run without them leaves
    the same trace, the same stereo, fuser and compositor objects and the
    same map: nothing was reconstructed, fused, composited or published
    for them. *)
Theorem partial_window_discarded flags nc :
  loadCameraRigFromFile (rig_path flags) = Some nc ->
  window flags <> 0 ->
  (length (loaded_images flags) <= length (loaded_poses flags))%nat ->
  Z.of_nat (length (loaded_images flags)) < 2 ^ 64 ->
  exists t s,
    main flags = (setup_events flags ++ t, Ok 0)
    /\ run_incrementally flags (loaded_poses flags) (loaded_images flags)
         (entry flags nc) = (t, Ok s)
    /\ (Z.of_nat (length (images_subset s)) < window flags ->
        let kept :=
          (length (loaded_images flags) - length (images_subset s))%nat in
        images_subset s = drop kept (loaded_images flags)
        /\ T_G_Bs_subset s
           = drop kept (take (length (loaded_images flags)) (loaded_poses flags))
        /\ exists s0,
             run_incrementally flags (loaded_poses flags)
               (take kept (loaded_images flags)) (entry flags nc) = (t, Ok s0)
             /\ stereo_ s0 = stereo_ s
             /\ digital_surface_map s0 = digital_surface_map s
             /\ mosaic s0 = mosaic s
             /\ map_ s0 = map_ s).
Proof.
  intros Hrig Hd Hlen Hsz.
  unfold entry. cbv zeta.
  set (P := loaded_poses flags) in *. set (I := loaded_images flags) in *.
  set (st := Stereo_new _ _ _). set (ds := (Dsm_new _ _).1).
  set (mo := (OrthoBackwardGrid_new _ _ _).1).
  set (m := (OrthoBackwardGrid_new _ _ _).2).
  destruct (run_reaches flags P I st ds mo m (length I) Hd Hlen)
    as (t & s & Hrun & Hr); [lia|].
  exists t, s. split; [|split; [exact Hrun|]].
  - rewrite (incremental_with_rig flags nc Hrig). unfold entry. cbv zeta.
    fold P I st ds mo m. unfold run_incrementally. by rewrite Hrun.
  - intros Hshort.
    destruct (reaches_since_boundary flags P I st ds mo m _ t s Hd Hsz Hr)
      as (j & s0 & Hj & Hr0 & Hst & Hds & Hmo & Hmap & Hpend).
    specialize (Hpend Hshort).
    destruct (reaches_partition flags P I st ds mo m _ t s Hr) as [Hpi Hpp].
    pose proof (reaches_buffers flags P I _ _ t s Hr eq_refl) as Hsame.
    rewrite take_ge in Hpi by lia.
    assert (Hkept : (length I - length (images_subset s))%nat = j) by lia.
    cbv zeta. rewrite Hkept. split; [|split].
    + rewrite <- Hpi. symmetry. apply drop_app_length'.
      apply (f_equal length) in Hpi. rewrite length_app in Hpi. lia.
    + rewrite <- Hpp. symmetry. apply drop_app_length'.
      apply (f_equal length) in Hpp.
      rewrite length_app, length_take_le in Hpp by lia. lia.
    + exists s0. repeat (split; [|assumption]).
      pose proof (reaches_take flags P I st ds mo m j j t s0 Hr0 (le_n j)) as Ht.
      apply (reaches_run flags P (take j I) st ds mo m j t s0 Hd) in Ht.
      unfold run_incrementally. by rewrite length_take_le by lia.
Qed.

(** C6: whenever the fuser is called in the incremental loop, the call
    just before it is the reconstruction of the current frame, and the
    cloud the fuser receives is the one that call left in a vector that
    was empty when it was handed over. *)
Theorem fuser_receives_fresh_points
    flags (T_G_Bs : Poses) (images : Images) (init : LoopState) t1 pc t2 :
  (run_incrementally flags T_G_Bs images init).1 = t1 ++ EvDsmProcess pc :: t2 ->
  exists t0 stereo T_G_B image,
    t1 = t0 ++ [EvAddFrame T_G_B image pc]
    /\ pc = (addFrame stereo T_G_B image []).2.
Proof. apply loop_fusions_fresh. Qed.

(** C7 (as amended): for a stride of at least 1, the frame at position
    [i + 1] of the stream is handed to the stereo object exactly when the
    stride divides [i + 1]; and every frame, handed to the stereo object
    or not, enters the window: the windows composited, followed by the
    pending window, are the whole stream. *)
Theorem stride_forwards_every_nth
    flags (T_G_Bs : Poses) (images : Images) stereo0 dsm0 mosaic0 map0 :
  1 <= FLAGS_dense_pcl_use_every_nth_image flags < 2 ^ 64 ->
  (length images <= length T_G_Bs)%nat ->
  Z.of_nat (length images) < 2 ^ 64 ->
  exists t s,
    run_incrementally flags T_G_Bs images (loop_init stereo0 dsm0 mosaic0 map0)
      = (t, Ok s)
    /\ t = concat (List.map
                     (iteration_events flags T_G_Bs images
                        (loop_init stereo0 dsm0 mosaic0 map0))
                     (seq 0 (length images)))
    /\ (forall i T_G_B image,
          T_G_Bs !! i = Some T_G_B -> images !! i = Some image ->
          ((FLAGS_dense_pcl_use_every_nth_image flags | Z.of_nat i + 1) ->
           stereo_frames
             (iteration_events flags T_G_Bs images
                (loop_init stereo0 dsm0 mosaic0 map0) i) = [(T_G_B, image)])
          /\ (~ (FLAGS_dense_pcl_use_every_nth_image flags | Z.of_nat i + 1) ->
              stereo_frames
                (iteration_events flags T_G_Bs images
                   (loop_init stereo0 dsm0 mosaic0 map0) i) = []))
    /\ concat (ortho_images t) ++ images_subset s = images
    /\ concat (ortho_poses t) ++ T_G_Bs_subset s = take (length images) T_G_Bs.
Proof.
  intros HN Hlen Hsz.
  assert (Hwin : window flags = FLAGS_dense_pcl_use_every_nth_image flags)
    by (unfold window, size_t; apply Z.mod_small; lia).
  assert (Hd : window flags <> 0) by lia.
  destruct (run_reaches flags T_G_Bs images stereo0 dsm0 mosaic0 map0
              (length images) Hd Hlen) as (t & s & Hrun & Hr); [lia|].
  exists t, s. split; [exact Hrun|].
  split; [by apply (reaches_trace flags T_G_Bs images _ _ _ _ _ t s)|].
  destruct (reaches_partition _ _ _ _ _ _ _ _ _ _ Hr) as [Hpi Hpp].
  rewrite take_ge in Hpi by lia.
  split; [|split; assumption].
  intros i p im Hp Him.
  pose proof (lookup_lt_Some _ _ _ Him) as Hi.
  destruct (iteration_cases flags T_G_Bs images stereo0 dsm0 mosaic0 map0
              i Hd Hlen Hsz Hi)
    as (ti & si & q & jm & _ & Hq & Hjm & Hit & Hcase).
  rewrite Hp in Hq. rewrite Him in Hjm. injection Hq as <-. injection Hjm as <-.
  rewrite Hit. rewrite <- Hwin.
  destruct Hcase as [[Hm Hbody]|[[Heq Hbody]|(Hm & Hgt & Hbody)]];
    rewrite Hbody; cbn [fst].
  - split; [|reflexivity]. intros Hdiv.
    apply Z.mod_divide in Hdiv; [contradiction | assumption].
  - split; [reflexivity|]. intros Hn. exfalso. apply Hn.
    rewrite Heq. apply Z.divide_refl.
  - split; [reflexivity|]. intros Hn. exfalso. apply Hn.
    by apply Z.mod_divide.
Qed.
End IncrementalClaims.

(** ** Configuration: the pose format and the compositor's settings *)

Section ConfigurationClaims.
Context `{Env : Collaborators}.

Lemma pose_formats_app (t u : list Event) :
  pose_formats (t ++ u) = pose_formats t ++ pose_formats u.
Proof. apply omap_app. Qed.

Lemma ortho_settings_used_app (t u : list Event) :
  ortho_settings_used (t ++ u) = ortho_settings_used t ++ ortho_settings_used u.
Proof. apply omap_app. Qed.

Lemma pose_formats_publish n (m : GridMap) :
  pose_formats (replicate n (EvPublish m)) = [].
Proof. induction n as [|n IH]; [reflexivity | exact IH]. Qed.

Lemma ortho_settings_used_publish n (m : GridMap) :
  ortho_settings_used (replicate n (EvPublish m)) = [].
Proof. induction n as [|n IH]; [reflexivity | exact IH]. Qed.

Lemma pose_formats_loop (t : list Event) :
  Forall (fun e => is_add_frame e || is_pass_event e = true) t ->
  pose_formats t = [].
Proof.
  induction 1 as [|e t He _ IH]; [reflexivity|].
  destruct e; try discriminate He; exact IH.
Qed.

(** C9: whatever the flags, the batch program calls the pose loader with
    the Standard format (once, if the rig loads), while the incremental
    program calls it with the format named by
    [backward_grid_pose_format]; the batch program has no such flag. *)
Theorem batch_reads_poses_as_standard :
  (forall flags : Batch.Flags,
     pose_formats (Batch.main flags).1
     = match loadCameraRigFromFile (BatchRun.rig_path flags) with
       | Some _ => [io.Standard]
       | None => []
       end)
  /\ (forall flags : Incremental.Flags,
        pose_formats (Incremental.main flags).1
        = match loadCameraRigFromFile (IncrementalRun.rig_path flags) with
          | Some _ =>
              [to_format (Incremental.FLAGS_backward_grid_pose_format flags)]
          | None => []
          end).
Proof.
  split; intros flags.
  - destruct (loadCameraRigFromFile (BatchRun.rig_path flags)) as [nc|] eqn:Hrig.
    + destruct (Batch.FLAGS_load_point_cloud_from_file flags) eqn:Hload.
      * destruct (Batch.FLAGS_point_cloud_filename flags) as [|c s] eqn:Hname.
        -- by rewrite (main_no_filename flags nc Hrig Hload Hname).
        -- rewrite (main_from_file flags nc Hrig Hload) by congruence.
           cbn [fst]. change (?a :: ?l ++ ?r) with ((a :: l) ++ r).
           by rewrite !pose_formats_app, pose_formats_publish.
      * rewrite (main_from_stereo flags nc Hrig Hload).
        cbn [fst]. change (?a :: ?l ++ ?r) with ((a :: l) ++ r).
        by rewrite !pose_formats_app, pose_formats_publish.
    + by rewrite (main_no_rig flags Hrig).
  - destruct (loadCameraRigFromFile (IncrementalRun.rig_path flags))
      as [nc|] eqn:Hrig.
    + rewrite (incremental_with_rig flags nc Hrig). cbn [fst].
      rewrite pose_formats_app.
      rewrite (pose_formats_loop (Incremental.run_incrementally _ _ _ _).1)
        by apply loop_events.
      unfold IncrementalRun.setup_events, IncrementalRun.load_images_event.
      by destruct (IncrementalRun.image_names flags).
    + by rewrite (incremental_no_rig flags Hrig).
Qed.

(** C10: [parseSettingsOrtho] assigns the five display, export and
    elevation fields from the flags and leaves the color and threading
    fields as they were; a batch run that gets as far as compositing
    builds its one compositor from the default settings so updated, hence
    with the default color mode and the default threading, whatever the
    flags. *)
Theorem batch_never_sets_color_or_threads (flags : Batch.Flags) :
  (forall s : ortho.Settings double,
     ortho.colored_ortho (Batch.parseSettingsOrtho flags s)
       = ortho.colored_ortho s
     /\ ortho.use_multi_threads (Batch.parseSettingsOrtho flags s)
        = ortho.use_multi_threads s
     /\ ortho.show_orthomosaic_opencv (Batch.parseSettingsOrtho flags s)
        = Batch.FLAGS_backward_grid_show_orthomosaic_opencv flags
     /\ ortho.save_orthomosaic_jpg (Batch.parseSettingsOrtho flags s)
        = Batch.FLAGS_backward_grid_save_orthomosaic_jpg flags
     /\ ortho.orthomosaic_jpg_filename (Batch.parseSettingsOrtho flags s)
        = Batch.FLAGS_backward_grid_orthomosaic_jpg_filename flags
     /\ ortho.orthomosaic_elevation_m (Batch.parseSettingsOrtho flags s)
        = Batch.FLAGS_backward_grid_orthomosaic_elevation_m flags
     /\ ortho.use_digital_elevation_map (Batch.parseSettingsOrtho flags s)
        = Batch.FLAGS_backward_grid_use_digital_elevation_map flags)
  /\ ortho_settings_used (Batch.main flags).1
     = match (Batch.main flags).2 with
       | Ok _ => [Batch.parseSettingsOrtho flags ortho_Settings_default]
       | _ => []
       end
  /\ Forall (fun so =>
               ortho.colored_ortho so = ortho.colored_ortho ortho_Settings_default
               /\ ortho.use_multi_threads so
                  = ortho.use_multi_threads ortho_Settings_default)
            (ortho_settings_used (Batch.main flags).1).
Proof.
  split; [intros s; repeat split|].
  assert (Hused :
    ortho_settings_used (Batch.main flags).1
    = match (Batch.main flags).2 with
      | Ok _ => [Batch.parseSettingsOrtho flags ortho_Settings_default]
      | _ => []
      end).
  { destruct (main_cases flags) as [H|[H|[[nc H]|[nc H]]]]; rewrite H;
      cbn [fst snd]; try reflexivity;
      change (?a :: ?l ++ ?r) with ((a :: l) ++ r);
      by rewrite !ortho_settings_used_app, ortho_settings_used_publish. }
  split; [exact Hused|]. rewrite Hused.
  destruct (Batch.main flags).2; repeat constructor.
Qed.
End ConfigurationClaims.

(** ** Runs in the sample world *)

Section SampleRuns.
Import Sample.
Existing Instance world.

Local Abbreviation five := (incremental_flags 5 "Standard").

(** The tenth iteration composites the ten pending frames and clears
    the buffers. *)
Lemma window_composited_once_then_cleared_witness :
  exists t' s',
    for_loop (Incremental.loop_body five (poses 12) (images 12)) 10 init
      = (t', Ok s')
    /\ concat (ortho_images t') = images 10
    /\ Incremental.images_subset s' = []
    /\ Incremental.T_G_Bs_subset s' = [].
Proof.
  destruct (window_composited_once_then_cleared five (poses 12) (images 12)
              [] tt tt [] 9)
    as (t & s & t' & s' & p & im & _ & Hrun' & _ & _ & _ & _ & Hpi & _ & Hpass).
  - vm_compute. discriminate.
  - vm_compute. lia.
  - vm_compute. reflexivity.
  - vm_compute. lia.
  - destruct (Hpass (poses 10) (images 10)) as (_ & _ & Hi & Hp).
    + vm_compute. right; right; left. reflexivity.
    + exists t', s'. split; [exact Hrun'|]. rewrite Hi in Hpi.
      rewrite app_nil_r in Hpi. by repeat split.
Defined.

(** Scenario B in the sample world. *)
Lemma scenario_B_single_pass_witness :
  Incremental.run_incrementally five (poses 12) (images 12) init
  = ([EvAddFrame 4%nat 104%nat [104%nat];
      EvAddFrame 9%nat 109%nat [109%nat];
      EvDsmProcess [109%nat];
      EvOrthoProcess (poses 10) (images 10);
      EvPublish (109%nat :: images 10)],
     Ok {| Incremental.images_subset := [110; 111]%nat;
           Incremental.T_G_Bs_subset := [10; 11]%nat;
           Incremental.skip := 12;
           Incremental.pcl_cnt := 2;
           Incremental.stereo_ := [104; 109]%nat;
           Incremental.digital_surface_map := tt;
           Incremental.mosaic := tt;
           Incremental.map_ := 109%nat :: images 10 |}).
Proof.
  exact (scenario_B_single_pass five [] tt tt []
           0%nat 1%nat 2%nat 3%nat 4%nat 5%nat 6%nat 7%nat 8%nat 9%nat
           10%nat 11%nat
           100%nat 101%nat 102%nat 103%nat 104%nat 105%nat 106%nat 107%nat
           108%nat 109%nat 110%nat 111%nat eq_refl).
Defined.

(** C3, as stated, fails: the run of Scenario B has one fusion, one
    compositing and one publication, not two. *)
Lemma scenario_B_not_two_passes :
  count is_dsm_process
    (Incremental.run_incrementally five (poses 12) (images 12) init).1 <> 2%nat
  /\ count is_ortho_process
       (Incremental.run_incrementally five (poses 12) (images 12) init).1 <> 2%nat
  /\ count is_publish
       (Incremental.run_incrementally five (poses 12) (images 12) init).1 <> 2%nat.
Proof. vm_compute. repeat split; discriminate. Qed.

(** Stride 5, 12 frames: the program returns 0 and the two pending
    frames are the last two of the input. *)
Lemma partial_window_discarded_witness :
  exists t s,
    Incremental.main five = (IncrementalRun.setup_events five ++ t, Ok 0)
    /\ Incremental.run_incrementally five (poses 12) (images 12)
         (IncrementalRun.entry five tt) = (t, Ok s)
    /\ Incremental.images_subset s = [110; 111]%nat.
Proof.
  destruct (partial_window_discarded five tt) as (t & s & Hmain & Hrun & Hdrop).
  - reflexivity.
  - vm_compute. discriminate.
  - vm_compute. lia.
  - vm_compute. reflexivity.
  - exists t, s. split; [exact Hmain|]. split; [exact Hrun|].
    assert (Hs : s = {| Incremental.images_subset := [110; 111]%nat;
                        Incremental.T_G_Bs_subset := [10; 11]%nat;
                        Incremental.skip := 12;
                        Incremental.pcl_cnt := 2;
                        Incremental.stereo_ := [104; 109]%nat;
                        Incremental.digital_surface_map := tt;
                        Incremental.mosaic := tt;
                        Incremental.map_ := 109%nat :: images 10 |}).
    { revert Hrun. vm_compute. congruence. }
    rewrite Hs. reflexivity.
Defined.

(** A batch run with dense reconstruction in the sample world. *)
Lemma batch_publishes_after_all_stages_witness :
  exists stages m,
    Batch.main (batch_flags false EmptyString)
      = (stages ++ replicate 3 (EvPublish m), Ok 0)
    /\ count is_publish stages = 0%nat.
Proof.
  destruct (batch_publishes_after_all_stages (batch_flags false EmptyString) tt)
    as (recon & point_cloud & Hmain & _ & Hcount).
  - reflexivity.
  - discriminate.
  - eexists _, _. split; [exact Hmain | exact Hcount].
Defined.

(** C5, as stated, fails: the sample world is stopped after three
    publications, and the batch run has published three times by then. *)
Lemma batch_publishes_more_than_once :
  count is_publish (Batch.main (batch_flags false EmptyString)).1 <> 1%nat.
Proof. vm_compute. discriminate. Qed.

(** The one fusion of Scenario B gets the points of the tenth frame. *)
Lemma fuser_receives_fresh_points_witness :
  exists t0 st T_G_B image,
    [EvAddFrame 4%nat 104%nat [104%nat]; EvAddFrame 9%nat 109%nat [109%nat]]
    = t0 ++ [EvAddFrame T_G_B image [109%nat]]
    /\ [109%nat] = (addFrame st T_G_B image []).2.
Proof.
  apply (fuser_receives_fresh_points five (poses 12) (images 12) init
           [EvAddFrame (Env:=world) 4%nat 104%nat [104%nat];
            EvAddFrame (Env:=world) 9%nat 109%nat [109%nat]]
           [109%nat]
           [EvOrthoProcess (Env:=world) (poses 10) (images 10);
            EvPublish (Env:=world) (109%nat :: images 10)]).
  reflexivity.
Defined.

(** Stride 5: the fifth frame goes to the stereo object, the sixth does
    not, and all twelve frames are in a window. *)
Lemma stride_forwards_every_nth_witness :
  stereo_frames (iteration_events five (poses 12) (images 12) init 4)
    = [(4%nat, 104%nat)]
  /\ stereo_frames (iteration_events five (poses 12) (images 12) init 5) = []
  /\ exists t s,
       Incremental.run_incrementally five (poses 12) (images 12) init = (t, Ok s)
       /\ concat (ortho_images t) ++ Incremental.images_subset s = images 12.
Proof.
  destruct (stride_forwards_every_nth five (poses 12) (images 12) [] tt tt [])
    as (t & s & Hrun & _ & Hfwd & Hpi & _).
  - vm_compute. split; [discriminate | reflexivity].
  - vm_compute. lia.
  - vm_compute. reflexivity.
  - split; [|split].
    + apply (Hfwd 4%nat 4%nat 104%nat); [reflexivity | reflexivity |].
      exists 1. reflexivity.
    + apply (Hfwd 5%nat 5%nat 105%nat); [reflexivity | reflexivity |].
      intros [q Hq]. cbn in Hq. lia.
    + exists t, s. split; [exact Hrun | exact Hpi].
Defined.

(** C7, as stated for every stride, fails: position 1 is a multiple of
    the stride -1, and with that stride the frame at position 1 is not
    handed to the stereo object. *)
Lemma negative_stride_forwards_nothing :
  ~ (In (0%nat, 100%nat)
        (stereo_frames
           (Incremental.run_incrementally (incremental_flags (-1) "Standard")
              (poses 1) (images 1) init).1)
     <-> (-1 | Z.of_nat 0 + 1)).
Proof.
  intros [_ Hfwd].
  assert (Hdiv : (-1 | Z.of_nat 0 + 1)) by (exists (-1); reflexivity).
  apply Hfwd in Hdiv. vm_compute in Hdiv. exact Hdiv.
Qed.

(** The three ways of the point-cloud source in the sample world. *)
Lemma point_cloud_source_witness :
  (exists t, Batch.main (batch_flags true EmptyString) = (t, Fatal)
     /\ count is_stereo_event t = 0%nat /\ count is_pass_event t = 0%nat)
  /\ count is_stereo_event (Batch.main (batch_flags true "cloud.txt")).1 = 0%nat
  /\ count is_load_point_cloud (Batch.main (batch_flags false EmptyString)).1
     = 0%nat.
Proof.
  split; [|split].
  - apply (proj1 (point_cloud_source (batch_flags true EmptyString)));
      reflexivity.
  - destruct (proj1 (proj2 (point_cloud_source (batch_flags true "cloud.txt")))
                tt eq_refl eq_refl) as (t1 & t2 & _ & _ & _ & Hnone).
    + discriminate.
    + exact Hnone.
  - destruct (proj2 (proj2 (point_cloud_source (batch_flags false EmptyString)))
                tt eq_refl eq_refl) as (t1 & t2 & _ & _ & _ & Hnone).
    exact Hnone.
Defined.
End SampleRuns.

(** * Further properties of the two programs *)

(** ** Outcomes and set-up *)

Section OutcomeFacts.
Context `{Env : Collaborators}.

(** A failed iteration ends the loop: later iterations add nothing. *)
Lemma for_loop_undefined {S} (f : S -> nat -> M S) n j init t :
  for_loop f n init = (t, Undefined) ->
  for_loop f (n + j) init = (t, Undefined).
Proof.
  intros Hn. induction j as [|j IH].
  - by rewrite Nat.add_0_r.
  - rewrite Nat.add_succ_r. cbn [for_loop]. by rewrite IH.
Qed.

(** Only the iterations that run matter. *)
Lemma for_loop_ext {S} (f g : S -> nat -> M S) n init :
  (forall i s, (i < n)%nat -> f s i = g s i) ->
  for_loop f n init = for_loop g n init.
Proof.
  induction n as [|n IH]; intros Hfg; [reflexivity|].
  cbn [for_loop]. rewrite IH by (intros; apply Hfg; lia).
  unfold bind. destruct (for_loop g n init) as [t [s| |]]; cbn [fst snd];
    [by rewrite Hfg by lia | reflexivity | reflexivity].
Qed.

(** The loop has no CHECK: it cannot end in a fatal error. *)
Lemma loop_not_fatal flags (T_G_Bs : Poses) (images : Images) init k :
  (for_loop (Incremental.loop_body flags T_G_Bs images) k init).2 <> Fatal.
Proof.
  induction k as [|k IH]; [discriminate|].
  cbn [for_loop]. unfold bind.
  destruct (for_loop _ k init) as [t [s| |]]; cbn [fst snd] in *;
    [|contradiction|discriminate].
  unfold Incremental.loop_body, at_index, Incremental.rem.
  destruct (images !! k); [|discriminate].
  destruct (T_G_Bs !! k); [|discriminate].
  destruct (_ =? 0); [discriminate|]. run_prog.
  destruct (_ mod _ =? 0); [|discriminate].
  destruct (0 <? _); discriminate.
Qed.

(** X1: the batch program never runs into undefined behaviour: it ends
    with a fatal check when the rig does not load or when load-from-file
    is chosen without a file name, and returns 0 in every other case. *)
Theorem batch_outcome (flags : Batch.Flags) :
  (Batch.main flags).2
  = match loadCameraRigFromFile (BatchRun.rig_path flags) with
    | None => Fatal
    | Some _ =>
        if Batch.FLAGS_load_point_cloud_from_file flags
           && empty (Batch.FLAGS_point_cloud_filename flags)
        then Fatal else Ok 0
    end.
Proof.
  destruct (loadCameraRigFromFile (BatchRun.rig_path flags)) as [nc|] eqn:Hrig.
  - destruct (Batch.FLAGS_load_point_cloud_from_file flags) eqn:Hload.
    + destruct (Batch.FLAGS_point_cloud_filename flags) as [|c s] eqn:Hname.
      * by rewrite (main_no_filename flags nc Hrig Hload Hname).
      * rewrite (main_from_file flags nc Hrig Hload) by congruence.
        reflexivity.
    + by rewrite (main_from_stereo flags nc Hrig Hload).
  - by rewrite (main_no_rig flags Hrig).
Qed.

(** X2: in both programs a rig that does not load ends the run at once:
    no pose or image is read and no object is built. In the incremental
    program this is the only fatal error there is. *)
Theorem rig_failure_stops_run :
  (forall flags : Batch.Flags,
     loadCameraRigFromFile (BatchRun.rig_path flags) = None ->
     Batch.main flags = ([EvLoadCameraRig (BatchRun.rig_path flags)], Fatal))
  /\ (forall flags : Incremental.Flags,
        loadCameraRigFromFile (IncrementalRun.rig_path flags) = None ->
        Incremental.main flags
        = ([EvLoadCameraRig (IncrementalRun.rig_path flags)], Fatal))
  /\ (forall flags : Incremental.Flags,
        (Incremental.main flags).2 = Fatal ->
        loadCameraRigFromFile (IncrementalRun.rig_path flags) = None).
Proof.
  split; [exact main_no_rig | split; [exact incremental_no_rig|]].
  intros flags Hfatal.
  destruct (loadCameraRigFromFile (IncrementalRun.rig_path flags))
    as [nc|] eqn:Hrig; [|reflexivity].
  rewrite (incremental_with_rig flags nc Hrig) in Hfatal. cbn [snd] in Hfatal.
  unfold Incremental.run_incrementally in Hfatal.
  pose proof (loop_not_fatal flags (IncrementalRun.loaded_poses flags)
                (IncrementalRun.loaded_images flags)
                (IncrementalRun.entry flags nc)
                (length (IncrementalRun.loaded_images flags))) as Hloop.
  destruct (for_loop _ _ _).2; [discriminate | contradiction | discriminate].
Qed.

Lemma omap_loop {B} (f : Event -> option B) (t : list Event) :
  (forall e, is_add_frame e || is_pass_event e = true -> f e = None) ->
  Forall (fun e => is_add_frame e || is_pass_event e = true) t ->
  omap f t = [].
Proof.
  intros Hf. induction 1 as [|e t He _ IH]; [reflexivity|].
  cbn [omap list_omap]. rewrite (Hf e He). exact IH.
Qed.

Lemma omap_publish {B} (f : Event -> option B) n (m : GridMap) :
  f (EvPublish m) = None -> omap f (replicate n (EvPublish m)) = [].
Proof.
  intros Hf. induction n as [|n IH]; [reflexivity|].
  cbn [replicate omap list_omap]. rewrite Hf. exact IH.
Qed.

(** X3: in both programs the fuser is built with the centre of the grid
    map, whatever the flags: each program builds as many fusers as grid
    maps (one of each, or none when it fails before), each fuser with
    the easting and northing of the map's centre. *)
Theorem dsm_centred_as_map :
  (forall flags : Batch.Flags,
     dsm_settings_used (Batch.main flags).1
     = centred_as <$> map_settings_used (Batch.main flags).1)
  /\ (forall flags : Incremental.Flags,
        dsm_settings_used (Incremental.main flags).1
        = centred_as <$> map_settings_used (Incremental.main flags).1).
Proof.
  split; intros flags.
  - destruct (main_cases flags) as [H|[H|[[nc H]|[nc H]]]]; rewrite H;
      cbn [fst]; try reflexivity;
      change (?a :: ?l ++ ?r) with ((a :: l) ++ r);
      unfold dsm_settings_used, map_settings_used;
      rewrite !omap_app, !omap_publish by reflexivity; reflexivity.
  - destruct (loadCameraRigFromFile (IncrementalRun.rig_path flags))
      as [nc|] eqn:Hrig.
    + rewrite (incremental_with_rig flags nc Hrig). cbn [fst].
      unfold dsm_settings_used, map_settings_used. rewrite !omap_app.
      rewrite !(omap_loop _ (Incremental.run_incrementally _ _ _ _).1);
        try apply loop_events;
        try (intros [] He; try reflexivity; discriminate He).
      unfold IncrementalRun.setup_events, IncrementalRun.load_images_event.
      by destruct (IncrementalRun.image_names flags).
    + by rewrite (incremental_no_rig flags Hrig).
Qed.

(** X4: unlike the batch program, the incremental program takes the
    color mode and the threading of its one compositor from the flags,
    and it loads the images in that same color mode. *)
Theorem incremental_color_from_flags (flags : Incremental.Flags) nc :
  loadCameraRigFromFile (IncrementalRun.rig_path flags) = Some nc ->
  exists so before after colored,
    ortho_settings_used (Incremental.main flags).1 = [so]
    /\ ortho.colored_ortho so
       = Incremental.FLAGS_backward_grid_colored_ortho flags
    /\ ortho.use_multi_threads so
       = Incremental.FLAGS_backward_grid_use_multi_threads flags
    /\ (Incremental.main flags).1
       = before ++ IncrementalRun.load_images_event flags :: after
    /\ (IncrementalRun.load_images_event flags
        = EvLoadImagesOpts (IncrementalRun.images_prefix flags)
            (length (IncrementalRun.loaded_poses flags)) colored
            (Incremental.FLAGS_backward_grid_show_images flags)
        \/ IncrementalRun.load_images_event flags
           = EvLoadImagesNames
               (Incremental.FLAGS_backward_grid_data_directory flags)
               (IncrementalRun.image_names flags) colored
               (Incremental.FLAGS_backward_grid_show_images flags))
    /\ colored = ortho.colored_ortho so.
Proof.
  intros Hrig. rewrite (incremental_with_rig flags nc Hrig). cbn [fst].
  exists (IncrementalRun.ortho_settings flags),
    [EvLoadCameraRig (IncrementalRun.rig_path flags);
     EvLoadPoses (IncrementalRun.pose_format flags)
       (IncrementalRun.poses_path flags)].
  eexists.
  exists (Incremental.FLAGS_backward_grid_colored_ortho flags).
  split; [|split; [reflexivity|split; [reflexivity|split; [reflexivity|split]]]].
  - unfold ortho_settings_used. rewrite omap_app.
    rewrite (omap_loop _ (Incremental.run_incrementally _ _ _ _).1);
      [| intros [] He; try reflexivity; discriminate He | apply loop_events].
    unfold IncrementalRun.setup_events, IncrementalRun.load_images_event.
    by destruct (IncrementalRun.image_names flags).
  - unfold IncrementalRun.load_images_event.
    destruct (IncrementalRun.image_names flags); [by left | by right].
  - reflexivity.
Qed.

(** X16: both programs ask the image loader for exactly as many numbered
    images as the pose loader returned poses; the incremental program
    does so only when the pose file names no images, and otherwise asks
    for exactly the images the pose file names. *)
Theorem images_requested_match_poses :
  (forall flags : Batch.Flags,
     image_counts_requested (Batch.main flags).1
     = match loadCameraRigFromFile (BatchRun.rig_path flags) with
       | Some _ => [length (BatchRun.loaded_poses flags)]
       | None => []
       end
     /\ image_names_requested (Batch.main flags).1 = [])
  /\ (forall flags : Incremental.Flags,
        match loadCameraRigFromFile (IncrementalRun.rig_path flags),
              IncrementalRun.image_names flags with
        | None, _ =>
            image_counts_requested (Incremental.main flags).1 = []
            /\ image_names_requested (Incremental.main flags).1 = []
        | Some _, [] =>
            image_counts_requested (Incremental.main flags).1
            = [length (IncrementalRun.loaded_poses flags)]
            /\ image_names_requested (Incremental.main flags).1 = []
        | Some _, _ :: _ =>
            image_counts_requested (Incremental.main flags).1 = []
            /\ image_names_requested (Incremental.main flags).1
               = [IncrementalRun.image_names flags]
        end).
Proof.
  split; intros flags.
  - destruct (loadCameraRigFromFile (BatchRun.rig_path flags)) as [nc|] eqn:Hrig.
    + destruct (Batch.FLAGS_load_point_cloud_from_file flags) eqn:Hload.
      * destruct (Batch.FLAGS_point_cloud_filename flags) as [|c s] eqn:Hname.
        -- by rewrite (main_no_filename flags nc Hrig Hload Hname).
        -- rewrite (main_from_file flags nc Hrig Hload) by congruence.
           cbn [fst]. change (?a :: ?l ++ ?r) with ((a :: l) ++ r).
           unfold image_counts_requested, image_names_requested.
           by rewrite !omap_app, !omap_publish by reflexivity.
      * rewrite (main_from_stereo flags nc Hrig Hload).
        cbn [fst]. change (?a :: ?l ++ ?r) with ((a :: l) ++ r).
        unfold image_counts_requested, image_names_requested.
        by rewrite !omap_app, !omap_publish by reflexivity.
    + by rewrite (main_no_rig flags Hrig).
  - destruct (loadCameraRigFromFile (IncrementalRun.rig_path flags))
      as [nc|] eqn:Hrig.
    + rewrite (incremental_with_rig flags nc Hrig). cbn [fst].
      unfold image_counts_requested, image_names_requested.
      rewrite !omap_app.
      rewrite !(omap_loop _ (Incremental.run_incrementally _ _ _ _).1);
        try apply loop_events;
        try (intros [] He; try reflexivity; discriminate He).
      unfold IncrementalRun.setup_events, IncrementalRun.load_images_event.
      by destruct (IncrementalRun.image_names flags).
    + rewrite (incremental_no_rig flags Hrig).
      by destruct (IncrementalRun.image_names flags).
Qed.
End OutcomeFacts.

(** ** The incremental loop at its edges *)

Section LoopEdges.
Context `{Env : Collaborators}.
Import Incremental.

(** X5: the poses beyond the number of images are never read: the loop
    runs the same, failing runs included, when they are cut off. *)
Theorem poses_beyond_images_unread
    flags (T_G_Bs : Poses) (images : Images) (init : LoopState) :
  run_incrementally flags T_G_Bs images init
  = run_incrementally flags (take (length images) T_G_Bs) images init.
Proof.
  unfold run_incrementally. apply for_loop_ext. intros i s Hi.
  unfold loop_body, at_index. by rewrite lookup_take_lt by lia.
Qed.

(** X6: with the stride flag 0 and at least one image, the remainder of
    the first iteration divides by zero (or, without any pose, the first
    pose is read out of range): the loop ends undefined before any
    collaborator is called. *)
Theorem zero_stride_undefined
    flags (T_G_Bs : Poses) (images : Images) (init : LoopState) :
  FLAGS_dense_pcl_use_every_nth_image flags = 0 ->
  images <> [] ->
  run_incrementally flags T_G_Bs images init = ([], Undefined).
Proof.
  intros Hzero Hne. destruct images as [|image rest]; [contradiction|].
  unfold run_incrementally. cbn [length].
  change (S (length rest)) with (1 + length rest)%nat.
  apply for_loop_undefined. cbn [for_loop].
  unfold loop_body, at_index, rem. rewrite Hzero.
  destruct T_G_Bs as [|T_G_B others]; reflexivity.
Qed.

(** X7: with more images than poses (and a stride that is not 0) the
    loop handles the frames that have a pose as it would handle them
    alone, and then ends undefined on the first image without a pose. *)
Theorem missing_pose_undefined
    flags (T_G_Bs : Poses) (images : Images) stereo0 dsm0 mosaic0 map0 :
  window flags <> 0 ->
  (length T_G_Bs < length images)%nat ->
  exists t s,
    run_incrementally flags T_G_Bs (take (length T_G_Bs) images)
      (loop_init stereo0 dsm0 mosaic0 map0) = (t, Ok s)
    /\ run_incrementally flags T_G_Bs images
         (loop_init stereo0 dsm0 mosaic0 map0) = (t, Undefined).
Proof.
  intros Hd Hshort.
  assert (Hcut : length (take (length T_G_Bs) images) = length T_G_Bs)
    by (rewrite length_take; lia).
  destruct (run_reaches flags T_G_Bs (take (length T_G_Bs) images)
              stereo0 dsm0 mosaic0 map0 (length T_G_Bs) Hd)
    as (t & s & Hrun & _); [lia | lia |].
  exists t, s. unfold run_incrementally. rewrite Hcut.
  split; [exact Hrun|].
  replace (length images)
    with (S (length T_G_Bs) + (length images - S (length T_G_Bs)))%nat by lia.
  apply for_loop_undefined. cbn [for_loop].
  rewrite (for_loop_ext (loop_body flags T_G_Bs images)
             (loop_body flags T_G_Bs (take (length T_G_Bs) images))).
  - rewrite Hrun. unfold bind. cbn [fst snd].
    destruct (lookup_lt_is_Some_2 images (length T_G_Bs)) as [image Him];
      [lia|].
    unfold loop_body, at_index. rewrite Him.
    rewrite (lookup_ge_None_2 T_G_Bs (length T_G_Bs)) by lia.
    cbn. by rewrite app_nil_r.
  - intros i s' Hi. unfold loop_body, at_index.
    by rewrite lookup_take_lt by lia.
Qed.

(** As long as fewer frames than the window have been consumed, the
    trace is empty and no object has been touched. *)
Lemma reaches_quiet
    flags (T_G_Bs : Poses) (images : Images) stereo0 dsm0 mosaic0 map0 k t s :
  window flags <> 0 ->
  Z.of_nat (length images) < 2 ^ 64 ->
  reaches flags T_G_Bs images (loop_init stereo0 dsm0 mosaic0 map0) k t s ->
  Z.of_nat k < window flags ->
  t = [] /\ pcl_cnt s = 0 /\ stereo_ s = stereo0
  /\ digital_surface_map s = dsm0 /\ mosaic s = mosaic0 /\ map_ s = map0.
Proof.
  intros Hd Hsz Hr. pose proof (window_range flags) as Hw.
  induction Hr as [|k t s p im Hr IH Hp Him Hm
                   |k t s p im Hr IH Hp Him Hm Hc
                   |k t s p im Hr IH Hp Him Hm Hc]; intros Hk.
  - by repeat split.
  - apply IH. lia.
  - exfalso.
    destruct (reaches_counters _ _ _ _ _ _ _ _ _ _ Hd Hsz Hr) as [Hs _].
    pose proof (lookup_lt_Some _ _ _ Him).
    unfold size_t in Hm.
    rewrite Hs, (Z.mod_small (Z.of_nat k + 1)), Z.mod_small in Hm; lia.
  - exfalso.
    destruct (reaches_counters _ _ _ _ _ _ _ _ _ _ Hd Hsz Hr) as [Hs _].
    pose proof (lookup_lt_Some _ _ _ Him).
    unfold size_t in Hm.
    rewrite Hs, (Z.mod_small (Z.of_nat k + 1)), Z.mod_small in Hm; lia.
Qed.

(** A run over fewer frames than the window. *)
Lemma run_below_window
    flags (T_G_Bs : Poses) (images : Images) stereo0 dsm0 mosaic0 map0 :
  window flags <> 0 ->
  (length images <= length T_G_Bs)%nat ->
  Z.of_nat (length images) < 2 ^ 64 ->
  Z.of_nat (length images) < window flags ->
  run_incrementally flags T_G_Bs images (loop_init stereo0 dsm0 mosaic0 map0)
  = ([], Ok {| images_subset := images;
               T_G_Bs_subset := take (length images) T_G_Bs;
               skip := Z.of_nat (length images);
               pcl_cnt := 0;
               stereo_ := stereo0;
               digital_surface_map := dsm0;
               mosaic := mosaic0;
               map_ := map0 |}).
Proof.
  intros Hd Hlen Hsz Hk.
  destruct (run_reaches flags T_G_Bs images stereo0 dsm0 mosaic0 map0
              (length images) Hd Hlen) as (t & s & Hrun & Hr); [lia|].
  destruct (reaches_quiet _ _ _ _ _ _ _ _ _ _ Hd Hsz Hr Hk)
    as (-> & Hc & Hst & Hds & Hmo & Hmap).
  destruct (reaches_counters _ _ _ _ _ _ _ _ _ _ Hd Hsz Hr) as [Hs _].
  destruct (reaches_partition _ _ _ _ _ _ _ _ _ _ Hr) as [Hpi Hpp].
  cbn in Hpi, Hpp. rewrite take_ge in Hpi by lia.
  unfold run_incrementally. rewrite Hrun. destruct s. cbn in *. by subst.
Qed.

(** X8: with fewer frames than the stride the loop calls no
    collaborator at all: the trace is empty, the stereo object, the
    fuser, the compositor and the map are as at entry, and every frame
    is left in the window buffers. *)
Theorem fewer_frames_than_stride
    flags (T_G_Bs : Poses) (images : Images) stereo0 dsm0 mosaic0 map0 :
  1 <= FLAGS_dense_pcl_use_every_nth_image flags < 2 ^ 64 ->
  (length images <= length T_G_Bs)%nat ->
  Z.of_nat (length images) < FLAGS_dense_pcl_use_every_nth_image flags ->
  run_incrementally flags T_G_Bs images (loop_init stereo0 dsm0 mosaic0 map0)
  = ([], Ok {| images_subset := images;
               T_G_Bs_subset := take (length images) T_G_Bs;
               skip := Z.of_nat (length images);
               pcl_cnt := 0;
               stereo_ := stereo0;
               digital_surface_map := dsm0;
               mosaic := mosaic0;
               map_ := map0 |}).
Proof.
  intros HN Hlen Hfew.
  assert (Hwin : window flags = FLAGS_dense_pcl_use_every_nth_image flags)
    by (unfold window, size_t; apply Z.mod_small; lia).
  apply run_below_window; lia.
Qed.

(** X9: a negative stride flag becomes a divisor of at least 2^64 - 2^31
    in [size_t]; with fewer frames than that the loop never finds a
    multiple: no frame is reconstructed, nothing is fused, composited or
    published, and the loop ends normally with every frame still in the
    window buffers. *)
Theorem negative_stride_disables_loop
    flags (T_G_Bs : Poses) (images : Images) stereo0 dsm0 mosaic0 map0 :
  - 2 ^ 31 <= FLAGS_dense_pcl_use_every_nth_image flags < 0 ->
  (length images <= length T_G_Bs)%nat ->
  Z.of_nat (length images) < 2 ^ 64 - 2 ^ 31 ->
  run_incrementally flags T_G_Bs images (loop_init stereo0 dsm0 mosaic0 map0)
  = ([], Ok {| images_subset := images;
               T_G_Bs_subset := take (length images) T_G_Bs;
               skip := Z.of_nat (length images);
               pcl_cnt := 0;
               stereo_ := stereo0;
               digital_surface_map := dsm0;
               mosaic := mosaic0;
               map_ := map0 |}).
Proof.
  intros HN Hlen Hfew.
  assert (Hwin : window flags
                 = 2 ^ 64 + FLAGS_dense_pcl_use_every_nth_image flags).
  { unfold window, size_t.
    rewrite <- (Z.mod_small (2 ^ 64 + _) (2 ^ 64)) by lia.
    rewrite <- (Z_mod_plus_full (FLAGS_dense_pcl_use_every_nth_image flags)
                  1 (2 ^ 64)).
    f_equal. lia. }
  apply run_below_window; lia.
Qed.
End LoopEdges.

(** ** What the incremental loop keeps *)

Section LoopInvariants.
Context `{Env : Collaborators}.
Import Incremental.

Lemma published_app (t u : list Event) :
  published (t ++ u) = published t ++ published u.
Proof. apply omap_app. Qed.

Lemma stereo_frames_app (t u : list Event) :
  stereo_frames (t ++ u) = stereo_frames t ++ stereo_frames u.
Proof. apply omap_app. Qed.

(** Until two windows have completed there is no pass: nothing has been
    handed to the fuser, the compositor or the publisher, and their
    objects and the map are as at entry. *)
Lemma reaches_unpublished
    flags (T_G_Bs : Poses) (images : Images) stereo0 dsm0 mosaic0 map0 k t s :
  window flags <> 0 ->
  Z.of_nat (length images) < 2 ^ 64 ->
  reaches flags T_G_Bs images (loop_init stereo0 dsm0 mosaic0 map0) k t s ->
  Z.of_nat k / window flags < 2 ->
  count is_pass_event t = 0%nat
  /\ ortho_images t = [] /\ ortho_poses t = [] /\ published t = []
  /\ digital_surface_map s = dsm0 /\ mosaic s = mosaic0 /\ map_ s = map0.
Proof.
  intros Hd Hsz Hr. pose proof (window_range flags) as Hw.
  induction Hr as [|k t s p im Hr IH Hp Him Hm
                   |k t s p im Hr IH Hp Him Hm Hc
                   |k t s p im Hr IH Hp Him Hm Hc]; intros Hk;
    [by repeat split | | |];
    destruct (reaches_counters _ _ _ _ _ _ _ _ _ _ Hd Hsz Hr) as [Hs Hcnt];
    pose proof (lookup_lt_Some _ _ _ Him) as Hlt;
    assert (Hwrap : size_t (skip s + 1) = Z.of_nat k + 1)
      by (unfold size_t; rewrite Hs, Z.mod_small; lia);
    rewrite Hwrap in Hm;
    replace (Z.of_nat (S k)) with (Z.of_nat k + 1) in Hk by lia.
  - rewrite div_succ_stay in Hk by lia. by apply IH.
  - rewrite div_succ_next in Hk by lia.
    destruct IH as (Hn & Hi & Hp' & Hpub & Hds & Hmo & Hmap); [lia|].
    rewrite count_app, ortho_images_app, ortho_poses_app, published_app,
      Hn, Hi, Hp', Hpub.
    by repeat split.
  - exfalso. rewrite div_succ_next in Hk by lia. lia.
Qed.

(** X10: when fewer than two windows complete, the loop never fuses,
    composites or publishes: the fuser, the compositor and the map are
    as at entry, and every frame is still in the window buffers when the
    loop ends. *)
Theorem fewer_than_two_windows
    flags (T_G_Bs : Poses) (images : Images) stereo0 dsm0 mosaic0 map0 :
  window flags <> 0 ->
  (length images <= length T_G_Bs)%nat ->
  Z.of_nat (length images) < 2 ^ 64 ->
  Z.of_nat (length images) < 2 * window flags ->
  exists t s,
    run_incrementally flags T_G_Bs images (loop_init stereo0 dsm0 mosaic0 map0)
      = (t, Ok s)
    /\ count is_pass_event t = 0%nat
    /\ published t = []
    /\ digital_surface_map s = dsm0 /\ mosaic s = mosaic0 /\ map_ s = map0
    /\ images_subset s = images
    /\ T_G_Bs_subset s = take (length images) T_G_Bs.
Proof.
  intros Hd Hlen Hsz Hfew. pose proof (window_range flags) as Hw.
  destruct (run_reaches flags T_G_Bs images stereo0 dsm0 mosaic0 map0
              (length images) Hd Hlen) as (t & s & Hrun & Hr); [lia|].
  destruct (reaches_unpublished _ _ _ _ _ _ _ _ _ _ Hd Hsz Hr)
    as (Hn & Hi & Hp & Hpub & Hds & Hmo & Hmap).
  { apply Z.div_lt_upper_bound; lia. }
  destruct (reaches_partition _ _ _ _ _ _ _ _ _ _ Hr) as [Hpi Hpp].
  rewrite Hi in Hpi. rewrite Hp in Hpp. cbn in Hpi, Hpp.
  rewrite take_ge in Hpi by lia.
  exists t, s. by repeat split.
Qed.

(** The sizes of the windows composited so far. *)
Lemma reaches_window_sizes
    flags (T_G_Bs : Poses) (images : Images) stereo0 dsm0 mosaic0 map0 k t s :
  window flags <> 0 ->
  Z.of_nat (length images) < 2 ^ 64 ->
  reaches flags T_G_Bs images (loop_init stereo0 dsm0 mosaic0 map0) k t s ->
  (fun w : Images => Z.of_nat (length w)) <$> ortho_images t
  = if Z.of_nat k / window flags <? 2 then []
    else 2 * window flags
         :: replicate (Z.to_nat (Z.of_nat k / window flags - 2)) (window flags).
Proof.
  intros Hd Hsz Hr. pose proof (window_range flags) as Hw.
  induction Hr as [|k t s p im Hr IH Hp Him Hm
                   |k t s p im Hr IH Hp Him Hm Hc
                   |k t s p im Hr IH Hp Him Hm Hc];
    [reflexivity | | |];
    destruct (reaches_counters _ _ _ _ _ _ _ _ _ _ Hd Hsz Hr) as [Hs Hcnt];
    pose proof (reaches_pending _ _ _ _ _ _ _ _ _ _ Hd Hsz Hr) as Hpend;
    pose proof (lookup_lt_Some _ _ _ Him) as Hlt;
    assert (Hwrap : size_t (skip s + 1) = Z.of_nat k + 1)
      by (unfold size_t; rewrite Hs, Z.mod_small; lia);
    rewrite Hwrap in Hm;
    assert (Hq : 0 <= Z.of_nat k / window flags) by (apply Z.div_pos; lia);
    replace (Z.of_nat (S k)) with (Z.of_nat k + 1) by lia.
  - rewrite div_succ_stay by lia. exact IH.
  - rewrite div_succ_next by lia. rewrite ortho_images_app, fmap_app, IH.
    rewrite Hcnt in Hc.
    destruct (Z.ltb_spec (Z.of_nat k / window flags) 2); [|lia].
    destruct (Z.ltb_spec (Z.of_nat k / window flags + 1) 2); [|lia].
    reflexivity.
  - rewrite div_succ_next by lia. rewrite ortho_images_app, fmap_app, IH.
    rewrite Hcnt in Hc.
    pose proof (div_succ_next (window flags) (Z.of_nat k)) as Hnext.
    pose proof (Z.div_mod (Z.of_nat k + 1) (window flags) Hd) as Hdm.
    rewrite Hm, Hnext in Hdm by lia.
    destruct (Z.ltb_spec (Z.of_nat k / window flags + 1) 2); [lia|].
    cbn [pass_events ortho_images omap list_omap fmap list_fmap].
    rewrite length_app, Nat2Z.inj_add, Hpend. cbn [length].
    destruct (Z.ltb_spec (Z.of_nat k / window flags) 2).
    + assert (Hone : Z.of_nat k / window flags = 1) by lia.
      rewrite Hone in *. cbn [app Z.sub Z.to_nat replicate Z.add Z.opp
                               Z.pos_sub Pos.pred_double].
      f_equal. lia.
    + replace (Z.of_nat k / window flags + 1 - 2)
        with (Z.succ (Z.of_nat k / window flags - 2)) by lia.
      rewrite Z2Nat.inj_succ by lia. rewrite replicate_S_end.
      rewrite app_comm_cons. f_equal. f_equal.
      pose proof (Z.div_mod (Z.of_nat k) (window flags) Hd). lia.
Qed.

(** X11: the first window handed to the compositor holds twice the
    stride's number of frames, since the buffers are not cleared when the
    first window completes; every later one holds exactly the stride's
    number. *)
Theorem first_window_is_double
    flags (T_G_Bs : Poses) (images : Images) stereo0 dsm0 mosaic0 map0 :
  window flags <> 0 ->
  (length images <= length T_G_Bs)%nat ->
  Z.of_nat (length images) < 2 ^ 64 ->
  exists t s,
    run_incrementally flags T_G_Bs images (loop_init stereo0 dsm0 mosaic0 map0)
      = (t, Ok s)
    /\ (fun w : Images => Z.of_nat (length w)) <$> ortho_images t
       = if Z.of_nat (length images) / window flags <? 2 then []
         else 2 * window flags
              :: replicate
                   (Z.to_nat (Z.of_nat (length images) / window flags - 2))
                   (window flags).
Proof.
  intros Hd Hlen Hsz.
  destruct (run_reaches flags T_G_Bs images stereo0 dsm0 mosaic0 map0
              (length images) Hd Hlen) as (t & s & Hrun & Hr); [lia|].
  exists t, s. split; [exact Hrun|].
  by apply (reaches_window_sizes _ _ _ _ _ _ _ _ _ _ Hd Hsz Hr).
Qed.

Lemma reaches_aligned
    flags (T_G_Bs : Poses) (images : Images) stereo0 dsm0 mosaic0 map0 k t s :
  reaches flags T_G_Bs images (loop_init stereo0 dsm0 mosaic0 map0) k t s ->
  length <$> ortho_poses t = length <$> ortho_images t.
Proof.
  intros Hr.
  induction Hr as [|k t s p im Hr IH Hp Him Hm
                   |k t s p im Hr IH Hp Him Hm Hc
                   |k t s p im Hr IH Hp Him Hm Hc];
    [reflexivity | exact IH | |].
  - rewrite ortho_images_app, ortho_poses_app, !fmap_app, IH. reflexivity.
  - rewrite ortho_images_app, ortho_poses_app, !fmap_app, IH.
    cbn [pass_events ortho_images ortho_poses omap list_omap fmap list_fmap].
    rewrite !length_app.
    by rewrite (reaches_buffers _ _ _ _ _ _ _ Hr eq_refl).
Qed.

(** X12: the compositor always receives as many poses as images, and
    they are the poses and the images of the same positions of the
    input: the pose windows, like the image windows, are consecutive
    segments of the input from its start. *)
Theorem windows_pair_poses_with_images
    flags (T_G_Bs : Poses) (images : Images) stereo0 dsm0 mosaic0 map0 :
  window flags <> 0 ->
  (length images <= length T_G_Bs)%nat ->
  exists t s,
    run_incrementally flags T_G_Bs images (loop_init stereo0 dsm0 mosaic0 map0)
      = (t, Ok s)
    /\ length <$> ortho_poses t = length <$> ortho_images t
    /\ length (T_G_Bs_subset s) = length (images_subset s)
    /\ concat (ortho_images t) ++ images_subset s = images
    /\ concat (ortho_poses t) ++ T_G_Bs_subset s = take (length images) T_G_Bs.
Proof.
  intros Hd Hlen.
  destruct (run_reaches flags T_G_Bs images stereo0 dsm0 mosaic0 map0
              (length images) Hd Hlen) as (t & s & Hrun & Hr); [lia|].
  destruct (reaches_partition _ _ _ _ _ _ _ _ _ _ Hr) as [Hpi Hpp].
  rewrite take_ge in Hpi by lia.
  exists t, s. split; [exact Hrun|].
  split; [by apply (reaches_aligned _ _ _ _ _ _ _ _ _ _ Hr)|].
  split; [symmetry; by apply (reaches_buffers _ _ _ _ _ _ _ Hr)|].
  by split.
Qed.

(** X13: when the loop ends, [skip] is the number of frames consumed and
    [pcl_cnt] is the number of [addFrame] calls made, which is the number
    of whole windows in the input. *)
Theorem counters_count
    flags (T_G_Bs : Poses) (images : Images) stereo0 dsm0 mosaic0 map0 :
  window flags <> 0 ->
  (length images <= length T_G_Bs)%nat ->
  Z.of_nat (length images) < 2 ^ 64 ->
  exists t s,
    run_incrementally flags T_G_Bs images (loop_init stereo0 dsm0 mosaic0 map0)
      = (t, Ok s)
    /\ skip s = Z.of_nat (length images)
    /\ pcl_cnt s = Z.of_nat (count is_add_frame t)
    /\ pcl_cnt s = Z.of_nat (length images) / window flags.
Proof.
  intros Hd Hlen Hsz. pose proof (window_range flags) as Hw.
  destruct (run_reaches flags T_G_Bs images stereo0 dsm0 mosaic0 map0
              (length images) Hd Hlen) as (t & s & Hrun & Hr); [lia|].
  destruct (reaches_counters _ _ _ _ _ _ _ _ _ _ Hd Hsz Hr) as [Hs Hc].
  destruct (reaches_counts _ _ _ _ _ _ _ _ _ _ Hd Hsz Hr) as (Ha & _).
  exists t, s. repeat (split; [assumption|]). split; [|assumption].
  rewrite Ha, Hc, Z2Nat.id; [reflexivity|]. apply Z.div_pos; lia.
Qed.

Lemma reaches_map_published
    flags (T_G_Bs : Poses) (images : Images) stereo0 dsm0 mosaic0 map0 k t s :
  reaches flags T_G_Bs images (loop_init stereo0 dsm0 mosaic0 map0) k t s ->
  map_ s = default map0 (last (published t))
  /\ stereo_ s = stereo_after stereo0 (stereo_frames t).
Proof.
  intros Hr.
  induction Hr as [|k t s p im Hr [IHm IHs] Hp Him Hm
                   |k t s p im Hr [IHm IHs] Hp Him Hm Hc
                   |k t s p im Hr [IHm IHs] Hp Him Hm Hc].
  - by split.
  - by split.
  - rewrite published_app, stereo_frames_app. cbn [reconstruct_events
      published stereo_frames omap list_omap]. rewrite app_nil_r.
    split; [exact IHm|].
    unfold stereo_after. rewrite foldl_snoc. cbn [stereo_ reconstruct_step].
    by rewrite IHs.
  - rewrite published_app, stereo_frames_app. cbn [pass_events
      published stereo_frames omap list_omap].
    rewrite last_snoc. split; [reflexivity|].
    unfold stereo_after. rewrite foldl_snoc. cbn [stereo_ pass_step].
    by rewrite IHs.
Qed.

(** X14: the map the loop holds is always the last one it published (the
    entry map before the first publication): no pass changes the map
    without publishing it, and each fusion starts from the map published
    last. *)
Theorem map_is_last_published
    flags (T_G_Bs : Poses) (images : Images) stereo0 dsm0 mosaic0 map0 k :
  window flags <> 0 ->
  (length images <= length T_G_Bs)%nat ->
  (k <= length images)%nat ->
  exists t s,
    for_loop (loop_body flags T_G_Bs images) k
      (loop_init stereo0 dsm0 mosaic0 map0) = (t, Ok s)
    /\ map_ s = default map0 (last (published t)).
Proof.
  intros Hd Hlen Hk.
  destruct (run_reaches flags T_G_Bs images stereo0 dsm0 mosaic0 map0
              k Hd Hlen Hk) as (t & s & Hrun & Hr).
  exists t, s. split; [exact Hrun|].
  by destruct (reaches_map_published _ _ _ _ _ _ _ _ _ _ Hr).
Qed.

(** X15: the stereo object is touched by nothing but the [addFrame]
    calls of the trace: at any point of the loop it is the entry object
    after [addFrame] on the frames forwarded so far, in order, each call
    with an empty point vector. *)
Theorem stereo_sees_forwarded_frames
    flags (T_G_Bs : Poses) (images : Images) stereo0 dsm0 mosaic0 map0 k :
  window flags <> 0 ->
  (length images <= length T_G_Bs)%nat ->
  (k <= length images)%nat ->
  exists t s,
    for_loop (loop_body flags T_G_Bs images) k
      (loop_init stereo0 dsm0 mosaic0 map0) = (t, Ok s)
    /\ stereo_ s = stereo_after stereo0 (stereo_frames t).
Proof.
  intros Hd Hlen Hk.
  destruct (run_reaches flags T_G_Bs images stereo0 dsm0 mosaic0 map0
              k Hd Hlen Hk) as (t & s & Hrun & Hr).
  exists t, s. split; [exact Hrun|].
  by destruct (reaches_map_published _ _ _ _ _ _ _ _ _ _ Hr).
Qed.
End LoopInvariants.

(** ** More runs in the sample world *)

Section SampleEdgeRuns.
Import Sample.
Existing Instance world.

Local Abbreviation five := (incremental_flags 5 "Standard").
Local Abbreviation two := (incremental_flags 2 "Standard").

(** Without a rig both programs stop after the attempt to load it. *)
Lemma rig_failure_stops_run_witness :
  Batch.main SampleEdge.batch_flags = ([EvLoadCameraRig EmptyString], Fatal)
  /\ Incremental.main SampleEdge.incremental_flags
     = ([EvLoadCameraRig EmptyString], Fatal)
  /\ loadCameraRigFromFile
       (IncrementalRun.rig_path SampleEdge.incremental_flags) = None.
Proof.
  destruct rig_failure_stops_run as (Hb & Hi & Hf).
  split; [|split].
  - apply (Hb SampleEdge.batch_flags). reflexivity.
  - apply (Hi SampleEdge.incremental_flags). reflexivity.
  - apply (Hf SampleEdge.incremental_flags). reflexivity.
Defined.

(** The sample run is colored throughout. *)
Lemma incremental_color_from_flags_witness :
  exists so,
    ortho_settings_used (Incremental.main five).1 = [so]
    /\ ortho.colored_ortho so = true
    /\ ortho.use_multi_threads so = true.
Proof.
  destruct (incremental_color_from_flags five tt eq_refl)
    as (so & _ & _ & _ & Hso & Hc & Ht & _).
  exists so. split; [exact Hso|]. split; [exact Hc | exact Ht].
Defined.

(** Stride 0 over twelve frames. *)
Lemma zero_stride_undefined_witness :
  Incremental.run_incrementally (incremental_flags 0 "Standard")
    (poses 12) (images 12) init = ([], Undefined).
Proof.
  apply (zero_stride_undefined (incremental_flags 0 "Standard")
           (poses 12) (images 12) init); [reflexivity | discriminate].
Defined.

(** Three poses for seven images, stride 2: the second frame is
    reconstructed, the fourth image has no pose. *)
Lemma missing_pose_undefined_witness :
  exists t,
    Incremental.run_incrementally two (poses 3) (images 7) init
    = (t, Undefined)
    /\ count is_add_frame t = 1%nat.
Proof.
  destruct (missing_pose_undefined two (poses 3) (images 7) [] tt tt [])
    as (t & s & Hcut & Hrun).
  - vm_compute. discriminate.
  - vm_compute. lia.
  - exists t. split; [exact Hrun|].
    revert Hcut. vm_compute. intros [= <- _]. reflexivity.
Defined.

(** Three frames, stride 5. *)
Lemma fewer_frames_than_stride_witness :
  (Incremental.run_incrementally five (poses 3) (images 3) init).1 = [].
Proof.
  refine (f_equal fst
            (fewer_frames_than_stride five (poses 3) (images 3) [] tt tt []
               _ _ _)).
  - vm_compute. split; [discriminate | reflexivity].
  - vm_compute. lia.
  - vm_compute. reflexivity.
Defined.

(** Stride -1 over twelve frames. *)
Lemma negative_stride_disables_loop_witness :
  (Incremental.run_incrementally (incremental_flags (-1) "Standard")
     (poses 12) (images 12) init).1 = [].
Proof.
  refine (f_equal fst
            (negative_stride_disables_loop (incremental_flags (-1) "Standard")
               (poses 12) (images 12) [] tt tt [] _ _ _)).
  - vm_compute. split; [discriminate | reflexivity].
  - vm_compute. lia.
  - vm_compute. reflexivity.
Defined.

(** Seven frames, stride 5: one window completes, nothing is published. *)
Lemma fewer_than_two_windows_witness :
  exists t s,
    Incremental.run_incrementally five (poses 7) (images 7) init = (t, Ok s)
    /\ published t = []
    /\ Incremental.images_subset s = images 7.
Proof.
  destruct (fewer_than_two_windows five (poses 7) (images 7) [] tt tt [])
    as (t & s & Hrun & _ & Hpub & _ & _ & _ & Hi & _).
  - vm_compute. discriminate.
  - vm_compute. lia.
  - vm_compute. reflexivity.
  - vm_compute. reflexivity.
  - exists t, s. by repeat split.
Defined.

(** Seven frames, stride 2: a window of four, then one of two. *)
Lemma first_window_is_double_witness :
  exists t s,
    Incremental.run_incrementally two (poses 7) (images 7) init = (t, Ok s)
    /\ (fun w : list nat => Z.of_nat (length w)) <$> ortho_images t = [4; 2].
Proof.
  destruct (first_window_is_double two (poses 7) (images 7) [] tt tt [])
    as (t & s & Hrun & Hsizes).
  - vm_compute. discriminate.
  - vm_compute. lia.
  - vm_compute. reflexivity.
  - exists t, s. split; [exact Hrun | exact Hsizes].
Defined.

Lemma windows_pair_poses_with_images_witness :
  exists t s,
    Incremental.run_incrementally two (poses 7) (images 7) init = (t, Ok s)
    /\ length <$> ortho_poses t = length <$> ortho_images t.
Proof.
  destruct (windows_pair_poses_with_images two (poses 7) (images 7)
              [] tt tt [])
    as (t & s & Hrun & Hpair & _).
  - vm_compute. discriminate.
  - vm_compute. lia.
  - exists t, s. split; [exact Hrun | exact Hpair].
Defined.

Lemma counters_count_witness :
  exists t s,
    Incremental.run_incrementally five (poses 12) (images 12) init = (t, Ok s)
    /\ Incremental.skip s = 12 /\ Incremental.pcl_cnt s = 2.
Proof.
  destruct (counters_count five (poses 12) (images 12) [] tt tt [])
    as (t & s & Hrun & Hs & _ & Hc).
  - vm_compute. discriminate.
  - vm_compute. lia.
  - vm_compute. reflexivity.
  - exists t, s. split; [exact Hrun|]. split; [exact Hs | exact Hc].
Defined.

Lemma map_is_last_published_witness :
  exists t s,
    for_loop (Incremental.loop_body five (poses 12) (images 12)) 11 init
    = (t, Ok s)
    /\ Incremental.map_ s = default [] (last (published t)).
Proof.
  apply (map_is_last_published five (poses 12) (images 12) [] tt tt [] 11).
  - vm_compute. discriminate.
  - vm_compute. lia.
  - vm_compute. lia.
Defined.

Lemma stereo_sees_forwarded_frames_witness :
  exists t s,
    for_loop (Incremental.loop_body five (poses 12) (images 12)) 11 init
    = (t, Ok s)
    /\ Incremental.stereo_ s = stereo_after [] (stereo_frames t).
Proof.
  apply (stereo_sees_forwarded_frames five (poses 12) (images 12)
           [] tt tt [] 11).
  - vm_compute. discriminate.
  - vm_compute. lia.
  - vm_compute. lia.
Defined.
End SampleEdgeRuns.

(** ** The first window and the first pass *)

Section FirstWindow.
Context `{Env : Collaborators}.
Import Incremental.

(** Between the completion of the first window and that of the second,
    the trace is the one reconstruction of the first window's last
    frame, made on the entry stereo object. *)
Lemma reaches_first_reconstruction
    flags (T_G_Bs : Poses) (images : Images) stereo0 dsm0 mosaic0 map0 k t s
    T_G_B1 image1 :
  window flags <> 0 ->
  Z.of_nat (length images) < 2 ^ 64 ->
  reaches flags T_G_Bs images (loop_init stereo0 dsm0 mosaic0 map0) k t s ->
  T_G_Bs !! Z.to_nat (window flags - 1) = Some T_G_B1 ->
  images !! Z.to_nat (window flags - 1) = Some image1 ->
  window flags <= Z.of_nat k < 2 * window flags ->
  t = [EvAddFrame T_G_B1 image1 (addFrame stereo0 T_G_B1 image1 []).2]
  /\ stereo_ s = (addFrame stereo0 T_G_B1 image1 []).1.
Proof.
  intros Hd Hsz Hr Hp1 Him1. pose proof (window_range flags) as Hw.
  induction Hr as [|k t s p im Hr IH Hp Him Hm
                   |k t s p im Hr IH Hp Him Hm Hc
                   |k t s p im Hr IH Hp Him Hm Hc]; intros Hk;
    [lia | | |];
    destruct (reaches_counters _ _ _ _ _ _ _ _ _ _ Hd Hsz Hr) as [Hs Hcnt];
    pose proof (lookup_lt_Some _ _ _ Him) as Hlt;
    assert (Hwrap : size_t (skip s + 1) = Z.of_nat k + 1)
      by (unfold size_t; rewrite Hs, Z.mod_small; lia);
    rewrite Hwrap in Hm.
  - destruct (Z_le_gt_dec (window flags) (Z.of_nat k)) as [Hge|Hlt'].
    + apply IH. lia.
    + exfalso. apply Hm.
      replace (Z.of_nat k + 1) with (window flags) by lia.
      apply Z_mod_same_full.
  - rewrite Hcnt in Hc.
    assert (Hfirst : Z.of_nat k + 1 = window flags)
      by (apply first_window; lia).
    assert (Hk1 : Z.to_nat (window flags - 1) = k) by lia.
    rewrite Hk1 in Hp1, Him1.
    rewrite Hp in Hp1. rewrite Him in Him1.
    injection Hp1 as <-. injection Him1 as <-.
    destruct (reaches_quiet _ _ _ _ _ _ _ _ _ _ Hd Hsz Hr)
      as (-> & _ & Hst & _); [lia|].
    unfold reconstruct_events, new_points.
    cbn [app reconstruct_step stereo_]. rewrite Hst. by split.
  - exfalso. rewrite Hcnt in Hc.
    assert (Hnext := div_succ_next (window flags) (Z.of_nat k)).
    assert (2 <= (Z.of_nat k + 1) / window flags) by lia.
    assert ((Z.of_nat k + 1) / window flags < 2); [|lia].
    apply Z.div_lt_upper_bound; lia.
Qed.

(** The state between the completion of the first window and that of
    the second. *)
Lemma reaches_between_windows
    flags (T_G_Bs : Poses) (images : Images) stereo0 dsm0 mosaic0 map0 k t s
    T_G_B1 image1 :
  window flags <> 0 ->
  Z.of_nat (length images) < 2 ^ 64 ->
  reaches flags T_G_Bs images (loop_init stereo0 dsm0 mosaic0 map0) k t s ->
  T_G_Bs !! Z.to_nat (window flags - 1) = Some T_G_B1 ->
  images !! Z.to_nat (window flags - 1) = Some image1 ->
  window flags <= Z.of_nat k < 2 * window flags ->
  t = [EvAddFrame T_G_B1 image1 (addFrame stereo0 T_G_B1 image1 []).2]
  /\ s = {| images_subset := take k images;
            T_G_Bs_subset := take k T_G_Bs;
            skip := Z.of_nat k;
            pcl_cnt := 1;
            stereo_ := (addFrame stereo0 T_G_B1 image1 []).1;
            digital_surface_map := dsm0;
            mosaic := mosaic0;
            map_ := map0 |}.
Proof.
  intros Hd Hsz Hr Hp1 Him1 Hk. pose proof (window_range flags) as Hw.
  destruct (reaches_first_reconstruction _ _ _ _ _ _ _ _ _ _ _ _
              Hd Hsz Hr Hp1 Him1 Hk) as [Ht Hst].
  destruct (reaches_counters _ _ _ _ _ _ _ _ _ _ Hd Hsz Hr) as [Hs Hcnt].
  assert (Hone : Z.of_nat k / window flags = 1).
  { symmetry. apply Z.div_unique with (r := Z.of_nat k - window flags); lia. }
  destruct (reaches_unpublished _ _ _ _ _ _ _ _ _ _ Hd Hsz Hr)
    as (_ & Hi & Hp & _ & Hds & Hmo & Hmap); [lia|].
  destruct (reaches_partition _ _ _ _ _ _ _ _ _ _ Hr) as [Hpi Hpp].
  rewrite Hi in Hpi. rewrite Hp in Hpp. cbn [concat app] in Hpi, Hpp.
  rewrite Hone in Hcnt.
  split; [exact Ht|]. destruct s. cbn in *. by subst.
Qed.

(** C1 (as amended): with at least two completed windows, the iteration
    that completes the first window only hands its frame to the entry
    stereo object, with an empty point vector: no fusion, compositing or
    publication is made then, the window buffers are kept, and the
    points of that reconstruction never reach the fuser. The first pass
    is made by the iteration that completes the second window: it
    reconstructs its frame, fuses the points of that frame alone into
    the entry map, composites all the frames consumed so far, those of
    the first window included, publishes the result and clears the
    buffers. Every later iteration that completes a window makes a pass
    over the pending window; no other iteration calls anything. *)
Theorem first_window_deferred_to_first_pass
    flags (T_G_Bs : Poses) (images : Images) stereo0 dsm0 mosaic0 map0 :
  window flags <> 0 ->
  (length images <= length T_G_Bs)%nat ->
  Z.of_nat (length images) < 2 ^ 64 ->
  2 * window flags <= Z.of_nat (length images) ->
  exists T_G_B1 image1 T_G_B2 image2,
    T_G_Bs !! Z.to_nat (window flags - 1) = Some T_G_B1
    /\ images !! Z.to_nat (window flags - 1) = Some image1
    /\ T_G_Bs !! Z.to_nat (2 * window flags - 1) = Some T_G_B2
    /\ images !! Z.to_nat (2 * window flags - 1) = Some image2
    /\ (let first := addFrame stereo0 T_G_B1 image1 [] in
       let second := addFrame first.1 T_G_B2 image2 [] in
       let fusion := Dsm_process dsm0 second.2 map0 in
       let compositing :=
         OrthoBackwardGrid_process mosaic0
           (take (Z.to_nat (2 * window flags)) T_G_Bs)
           (take (Z.to_nat (2 * window flags)) images) fusion.2 in
       for_loop (loop_body flags T_G_Bs images) (Z.to_nat (window flags))
         (loop_init stereo0 dsm0 mosaic0 map0)
       = ([EvAddFrame T_G_B1 image1 first.2],
          Ok {| images_subset := take (Z.to_nat (window flags)) images;
                T_G_Bs_subset := take (Z.to_nat (window flags)) T_G_Bs;
                skip := window flags;
                pcl_cnt := 1;
                stereo_ := first.1;
                digital_surface_map := dsm0;
                mosaic := mosaic0;
                map_ := map0 |})
       /\ for_loop (loop_body flags T_G_Bs images)
            (Z.to_nat (2 * window flags))
            (loop_init stereo0 dsm0 mosaic0 map0)
          = ([EvAddFrame T_G_B1 image1 first.2;
              EvAddFrame T_G_B2 image2 second.2;
              EvDsmProcess second.2;
              EvOrthoProcess (take (Z.to_nat (2 * window flags)) T_G_Bs)
                             (take (Z.to_nat (2 * window flags)) images);
              EvPublish compositing.2],
             Ok {| images_subset := [];
                   T_G_Bs_subset := [];
                   skip := 2 * window flags;
                   pcl_cnt := 2;
                   stereo_ := second.1;
                   digital_surface_map := fusion.1;
                   mosaic := compositing.1;
                   map_ := compositing.2 |}))
    /\ (forall i, (i < length images)%nat ->
          exists t s T_G_B image,
            for_loop (loop_body flags T_G_Bs images) i
              (loop_init stereo0 dsm0 mosaic0 map0) = (t, Ok s)
            /\ T_G_Bs !! i = Some T_G_B /\ images !! i = Some image
            /\ ((Z.of_nat i + 1) mod window flags <> 0 ->
                iteration_events flags T_G_Bs images
                  (loop_init stereo0 dsm0 mosaic0 map0) i = [])
            /\ (Z.of_nat i + 1 = window flags ->
                iteration_events flags T_G_Bs images
                  (loop_init stereo0 dsm0 mosaic0 map0) i
                = [EvAddFrame T_G_B image
                     (addFrame (stereo_ s) T_G_B image []).2])
            /\ ((Z.of_nat i + 1) mod window flags = 0 ->
                window flags < Z.of_nat i + 1 ->
                let points := (addFrame (stereo_ s) T_G_B image []).2 in
                let fusion :=
                  Dsm_process (digital_surface_map s) points (map_ s) in
                iteration_events flags T_G_Bs images
                  (loop_init stereo0 dsm0 mosaic0 map0) i
                = [EvAddFrame T_G_B image points;
                   EvDsmProcess points;
                   EvOrthoProcess (T_G_Bs_subset s ++ [T_G_B])
                                  (images_subset s ++ [image]);
                   EvPublish
                     (OrthoBackwardGrid_process (mosaic s)
                        (T_G_Bs_subset s ++ [T_G_B])
                        (images_subset s ++ [image]) fusion.2).2]))
    /\ exists t s,
         run_incrementally flags T_G_Bs images
           (loop_init stereo0 dsm0 mosaic0 map0) = (t, Ok s)
         /\ t = concat (List.map
                          (iteration_events flags T_G_Bs images
                             (loop_init stereo0 dsm0 mosaic0 map0))
                          (seq 0 (length images)))
         /\ count is_add_frame t
            = Z.to_nat (Z.of_nat (length images) / window flags)
         /\ count is_dsm_process t
            = (Z.to_nat (Z.of_nat (length images) / window flags) - 1)%nat
         /\ count is_ortho_process t
            = (Z.to_nat (Z.of_nat (length images) / window flags) - 1)%nat
         /\ count is_publish t
            = (Z.to_nat (Z.of_nat (length images) / window flags) - 1)%nat
         /\ (1 <= Z.to_nat (Z.of_nat (length images) / window flags) - 1)%nat.
Proof.
  intros Hd Hlen Hsz Htwo. pose proof (window_range flags) as Hw.
  assert (Hself : window flags mod window flags = 0) by apply Z_mod_same_full.
  destruct (lookup_lt_is_Some_2 T_G_Bs (Z.to_nat (window flags - 1)))
    as [p1 Hp1]; [lia|].
  destruct (lookup_lt_is_Some_2 images (Z.to_nat (window flags - 1)))
    as [im1 Him1]; [lia|].
  destruct (lookup_lt_is_Some_2 T_G_Bs (Z.to_nat (2 * window flags - 1)))
    as [p2 Hp2]; [lia|].
  destruct (lookup_lt_is_Some_2 images (Z.to_nat (2 * window flags - 1)))
    as [im2 Him2]; [lia|].
  exists p1, im1, p2, im2. repeat (split; [assumption|]).
  split; [cbv zeta; split|split].
  - (* the first window completes *)
    destruct (run_reaches flags T_G_Bs images stereo0 dsm0 mosaic0 map0
                (Z.to_nat (window flags)) Hd Hlen)
      as (t & s & Hrun & Hr); [lia|].
    destruct (reaches_between_windows _ _ _ _ _ _ _ _ _ _ _ _
                Hd Hsz Hr Hp1 Him1) as [-> ->]; [lia|].
    rewrite Hrun. by rewrite Z2Nat.id by lia.
  - (* the second window completes *)
    destruct (iteration_cases flags T_G_Bs images stereo0 dsm0 mosaic0 map0
                (Z.to_nat (2 * window flags - 1)) Hd Hlen Hsz)
      as (t & s & p & im & Hr & Hp & Him & _ & Hcase); [lia|].
    rewrite Hp2 in Hp. rewrite Him2 in Him.
    injection Hp as <-. injection Him as <-.
    destruct (reaches_between_windows _ _ _ _ _ _ _ _ _ _ _ _
                Hd Hsz Hr Hp1 Him1) as [Ht Hs]; [lia|].
    pose proof (reaches_run _ _ _ _ _ _ _ _ _ _ Hd Hr) as Hrun.
    replace (Z.to_nat (2 * window flags))
      with (S (Z.to_nat (2 * window flags - 1))) by lia.
    cbn [for_loop]. rewrite Hrun. unfold bind. cbn [fst snd].
    destruct Hcase as [[Hm _]|[[Heq _]|(_ & _ & Hbody)]].
    + exfalso. apply Hm.
      replace (Z.of_nat (Z.to_nat (2 * window flags - 1)) + 1)
        with (0 + 2 * window flags) by lia.
      apply Z_mod_plus_full.
    + lia.
    + rewrite Hbody. cbn [fst snd]. subst t s.
      unfold pass_events, pass_step, composited, fused, new_points.
      cbn [images_subset T_G_Bs_subset skip pcl_cnt stereo_
           digital_surface_map mosaic map_ app].
      rewrite <- (take_S_r _ _ _ Hp2), <- (take_S_r _ _ _ Him2).
      replace (size_t (Z.of_nat (Z.to_nat (2 * window flags - 1)) + 1))
        with (2 * window flags)
        by (unfold size_t; rewrite Z.mod_small; lia).
      reflexivity.
  - (* every iteration *)
    intros i Hi.
    destruct (iteration_cases flags T_G_Bs images stereo0 dsm0 mosaic0 map0
                i Hd Hlen Hsz Hi)
      as (t & s & p & im & Hr & Hp & Him & Hit & Hcase).
    exists t, s, p, im.
    split; [by apply (reaches_run _ _ _ _ _ _ _ _ _ _ Hd Hr)|].
    repeat (split; [assumption|]).
    rewrite Hit.
    destruct Hcase as [[Hm Hev]|[[Heq Hev]|(Hm & Hgt & Hev)]]; rewrite Hev;
      cbn [fst].
    + split; [reflexivity|]. split; [|contradiction].
      intros Heq. rewrite Heq in Hm. contradiction.
    + split; [intros Hm; rewrite Heq in Hm; contradiction|].
      split; [reflexivity | lia].
    + split; [contradiction|]. split; [lia | reflexivity].
  - (* the whole run *)
    destruct (run_reaches flags T_G_Bs images stereo0 dsm0 mosaic0 map0
                (length images) Hd Hlen) as (t & s & Hrun & Hr); [lia|].
    exists t, s. split; [exact Hrun|].
    split; [by apply (reaches_trace flags T_G_Bs images _ _ _ _ _ t s)|].
    destruct (reaches_counts flags T_G_Bs images stereo0 dsm0 mosaic0 map0
                _ t s Hd Hsz Hr) as (Ha & Hf & Hc & Hp).
    repeat (split; [assumption|]).
    assert (2 <= Z.of_nat (length images) / window flags)
      by (apply Z.div_le_lower_bound; lia).
    lia.
Qed.
End FirstWindow.

(** ** Scenario B and the first window *)

Section SampleFirstWindow.
Import Sample.
Existing Instance world.

Local Abbreviation five := (incremental_flags 5 "Standard").

(** Stride 5, 12 frames: the fifth frame is reconstructed alone, and the
    tenth iteration fuses the tenth frame's point and composites the
    first ten frames. *)
Lemma first_window_deferred_to_first_pass_witness :
  for_loop (Incremental.loop_body five (poses 12) (images 12)) 5 init
  = ([EvAddFrame 4%nat 104%nat [104%nat]],
     Ok {| Incremental.images_subset := images 5;
           Incremental.T_G_Bs_subset := poses 5;
           Incremental.skip := 5;
           Incremental.pcl_cnt := 1;
           Incremental.stereo_ := [104%nat];
           Incremental.digital_surface_map := tt;
           Incremental.mosaic := tt;
           Incremental.map_ := [] |})
  /\ for_loop (Incremental.loop_body five (poses 12) (images 12)) 10 init
     = ([EvAddFrame 4%nat 104%nat [104%nat];
         EvAddFrame 9%nat 109%nat [109%nat];
         EvDsmProcess [109%nat];
         EvOrthoProcess (poses 10) (images 10);
         EvPublish (109%nat :: images 10)],
        Ok {| Incremental.images_subset := [];
              Incremental.T_G_Bs_subset := [];
              Incremental.skip := 10;
              Incremental.pcl_cnt := 2;
              Incremental.stereo_ := [104; 109]%nat;
              Incremental.digital_surface_map := tt;
              Incremental.mosaic := tt;
              Incremental.map_ := 109%nat :: images 10 |}).
Proof.
  destruct (first_window_deferred_to_first_pass five (poses 12) (images 12)
              [] tt tt [])
    as (p1 & im1 & p2 & im2 & Hp1 & Him1 & Hp2 & Him2 & Hruns & _).
  - vm_compute. discriminate.
  - vm_compute. lia.
  - vm_compute. reflexivity.
  - vm_compute. discriminate.
  - injection Hp1 as <-. injection Him1 as <-.
    injection Hp2 as <-. injection Him2 as <-.
    exact Hruns.
Defined.

(** C1, as stated, fails: the frames of the first completed window are
    handed to the compositor, in the pass that the second window
    triggers, and are published with it. *)
Lemma first_window_frames_are_composited :
  ~ (forall ps ims,
       In (EvOrthoProcess ps ims)
          (Incremental.run_incrementally five (poses 12) (images 12) init).1 ->
       forall image, In image (take 5 (images 12)) -> ~ In image ims).
Proof.
  intros Hnone.
  apply (Hnone (poses 10) (images 10)) with (image := 100%nat);
    vm_compute; auto.
Qed.
End SampleFirstWindow.
